(** * antd-phone-input: masking, parsing and validation core

    A shallow embedding of the pure functions of [src/index.tsx]
    ([getMetadata], [getRawValue], [displayFormat], [cleanInput],
    [checkValidity], [parsePhoneNumber]), of the memoised helpers of the
    [PhoneInput] component ([clean], [first], [prev], [format]) and, in
    [Component], of its derived state and handlers, followed by the
    properties stated about them.

    Conventions.
    - A JavaScript string is a [list ascii]: every mask, dial code and
      keystroke handled by the component is ASCII, so a UTF-16 code unit, a
      code point and an [ascii] coincide.  ISO codes, which are only ever
      compared and used as keys, are kept as [string].
    - A JavaScript number produced by [parseInt] on a digit run is an [N].
      This is exact for runs of fewer than 16 digits (every phone number);
      beyond that JavaScript rounds to a double.
    - [undefined]/[null] results are [None]; array indices that may be [-1]
      are in [Z]. *)

From Stdlib Require Import ZArith NArith Lia Bool Ascii String List.
From Stdlib Require Import Decimal DecimalString DecimalN.
From stdpp Require Import base option list strings gmap.

Local Open Scope char_scope.
Local Open Scope list_scope.

(** ** Strings *)

Abbreviation jsstring := (list ascii).

(** A string literal as a JavaScript string. *)
Definition js (s : string) : jsstring := list_ascii_of_string s.

(** The character class [\d]: the ASCII digits [0-9]. *)
Definition isDigit (c : ascii) : bool :=
  (48 <=? nat_of_ascii c)%nat && (nat_of_ascii c <=? 57)%nat.

(** [const slots = new Set(".")] *)
Definition slots : gset ascii := {[ "." ]}.

(** [slots.has(c)] *)
Definition slots_has (c : ascii) : bool := bool_decide (c ∈ slots).

(** [s.match(/\d/g) || []] and [s.replaceAll(/\D/g, "")]: the digits of
    [s], in order. *)
Definition matchDigits (s : jsstring) : jsstring := List.filter isDigit s.

(** [pattern.replaceAll(/\d/g, ".")] *)
Definition replaceDigits (pattern : jsstring) : jsstring :=
  map (fun c => if isDigit c then "." else c) pattern.

(** [arr.findIndex(p)]: the index of the first element satisfying [p],
    [-1] when there is none. *)
Fixpoint findIndexFrom {A} (p : A -> bool) (i : Z) (l : list A) : Z :=
  match l with
  | [] => (-1)%Z
  | x :: l' => if p x then i else findIndexFrom p (i + 1)%Z l'
  end.

Definition findIndex {A} (p : A -> bool) (l : list A) : Z :=
  findIndexFrom p 0%Z l.

(** [arr[k]] for an index that may be negative or out of range. *)
Definition at_index {A} (l : list A) (k : Z) : option A :=
  if (k <? 0)%Z then None else l !! Z.to_nat k.

(** ** The mask formatter *)

(** [input[0] === c] *)
Definition head_is (queue : jsstring) (c : ascii) : bool :=
  match queue with
  | d :: _ => Ascii.eqb d c
  | [] => false
  end.

(** The callback of [Array.from(pattern, c => ...)] in [cleanInput],
    threaded over the template together with the queue it mutates through
    [input.shift()]:
    [input[0] === c || slots.has(c) ? input.shift() || c : c]. *)
Fixpoint fill (queue : jsstring) (pattern : jsstring) : jsstring :=
  match pattern with
  | [] => []
  | c :: pattern' =>
      if head_is queue c || slots_has c then
        match queue with
        | d :: queue' => d :: fill queue' pattern'
        | [] => c :: fill [] pattern'
        end
      else c :: fill queue pattern'
  end.

(** [cleanInput(input, pattern)] *)
Definition cleanInput (input pattern : jsstring) : jsstring :=
  fill (matchDigits input) pattern.

(** [clean], the [useCallback] of the component for the current [pattern]:
    [cleanInput(input, pattern.replaceAll(/\d/g, "."))]. *)
Definition clean (pattern input : jsstring) : jsstring :=
  cleanInput input (replaceDigits pattern).

(** ** Display trimming *)

(** The longest prefix of digits of [s] (a greedy [\d*]) and what
    follows it. *)
Fixpoint takeDigits (s : jsstring) : jsstring :=
  match s with
  | c :: s' => if isDigit c then c :: takeDigits s' else []
  | [] => []
  end.

Fixpoint dropDigits (s : jsstring) : jsstring :=
  match s with
  | c :: s' => if isDigit c then dropDigits s' else s
  | [] => []
  end.

(** Dropping the longest prefix of non-digits. *)
Fixpoint dropNonDigits (s : jsstring) : jsstring :=
  match s with
  | c :: s' => if isDigit c then s else dropNonDigits s'
  | [] => []
  end.

(** [value.replace(/[.\s\D]+$/, "")].  The class [[.\s\D]] is [\D] (a dot
    and a white space are not digits), and without the [m] flag [$] is the
    end of the input, so the leftmost match is the maximal run of
    non-digits that ends the string. *)
Definition trimTrailing (value : jsstring) : jsstring :=
  rev (dropNonDigits (rev value)).

(** Whether [/(\(\d+)$/] matches: the string ends with an opening
    parenthesis followed by one or more digits. *)
Definition endsWithOpenGroup (value : jsstring) : bool :=
  match takeDigits (rev value), dropDigits (rev value) with
  | _ :: _, c :: _ => Ascii.eqb c "("
  | _, _ => false
  end.

(** [value.replace(/(\(\d+)$/, "$1)")] *)
Definition closeGroup (value : jsstring) : jsstring :=
  if endsWithOpenGroup value then value ++ [")"] else value.

(** [displayFormat(value)] *)
Definition displayFormat (value : jsstring) : jsstring :=
  closeGroup (trimTrailing value).

(** ** Numbers *)

(** The value of a decimal digit character. *)
Definition digitValue (c : ascii) : N := N.of_nat (nat_of_ascii c - 48).

(** The value of a run of decimal digits, read left to right. *)
Definition digitsValue (ds : jsstring) : N :=
  fold_left (fun acc c => (10 * acc + digitValue c)%N) ds 0%N.

(** [parseInt(s)] for the two shapes the parser passes to it, an optional
    [+] followed by digits; [None] stands for [NaN] (no digit to read). *)
Definition parseInt (s : jsstring) : option N :=
  let s' := match s with
            | c :: r => if Ascii.eqb c "+" then r else s
            | [] => s
            end in
  match takeDigits s' with
  | [] => None
  | ds => Some (digitsValue ds)
  end.

(** [String(n)] for a non-negative integer: its decimal digits. *)
Definition numberToString (n : N) : jsstring :=
  list_ascii_of_string (NilEmpty.string_of_uint (N.to_uint n)).

(** ** Data model *)

(** A row of [countries.json]: [c[0]] the ISO code, [c[1]] the name,
    [c[2]] a field the core never reads, [c[3]] the dial code, [c[4]] the
    mask. *)
Record CountryRecord := {
  isoOf : string;
  nameOf : jsstring;
  regionsOf : list jsstring;
  dialOf : jsstring;
  maskOf : jsstring
}.

(** The [PhoneNumber] type of [./types]. *)
Record PhoneNumber := {
  countryCode : option N;
  areaCode : option N;
  phoneNumber : option jsstring;
  isoCode : option string
}.

(** ** Country matcher *)

(** [rawValue.startsWith(prefix)] *)
Fixpoint startsWith (rawValue prefix : jsstring) : bool :=
  match prefix, rawValue with
  | [], _ => true
  | p :: prefix', c :: rawValue' => Ascii.eqb c p && startsWith rawValue' prefix'
  | _ :: _, [] => false
  end.

(** [country == null || country === c[0]] *)
Definition pinned (country : option string) (c : CountryRecord) : bool :=
  match country with
  | None => true
  | Some k => String.eqb k (isoOf c)
  end.

(** [getMetadata(rawValue, countriesList, country)] *)
Definition getMetadata (rawValue : jsstring) (countriesList : list CountryRecord)
    (country : option string) : option CountryRecord :=
  List.find (fun c => startsWith rawValue (dialOf c) && pinned country c)
    countriesList.

(** ** Raw digits *)

(** [String(x)] of a field that survived [filter(Boolean)]: a number [0]
    and an empty string are falsy, like [null]. *)
Definition truthyNumber (x : option N) : jsstring :=
  match x with
  | Some n => if (n =? 0)%N then [] else numberToString n
  | None => []
  end.

Definition truthyString (x : option jsstring) : jsstring :=
  match x with
  | Some s => s
  | None => []
  end.

(** [getRawValue(value)] for [value: PhoneNumber | string]. *)
Definition getRawValue (value : PhoneNumber + jsstring) : jsstring :=
  match value with
  | inr s => matchDigits s
  | inl n =>
      truthyNumber (countryCode n) ++ truthyNumber (areaCode n)
        ++ truthyString (phoneNumber n)
  end.

(** ** Phone number parser *)

(** [formattedNumber.match(/\+\d+/)]: element [0] of the leftmost match, a
    [+] followed by the longest run of one or more digits; [None] when the
    pattern does not occur. *)
Fixpoint countryCodeMatch (formattedNumber : jsstring) : option jsstring :=
  match formattedNumber with
  | [] => None
  | c :: rest =>
      if Ascii.eqb c "+" then
        match takeDigits rest with
        | [] => countryCodeMatch rest
        | ds => Some ("+" :: ds)
        end
      else countryCodeMatch rest
  end.

(** [formattedNumber.match(/\((\d+)\)/)]: element [1] (the captured
    digits) of the leftmost match.  After the greedy run of digits the
    next character has to be the closing parenthesis: giving digits back
    cannot help, a digit is not a parenthesis. *)
Fixpoint areaCodeMatch (formattedNumber : jsstring) : option jsstring :=
  match formattedNumber with
  | [] => None
  | c :: rest =>
      if Ascii.eqb c "(" then
        match takeDigits rest, dropDigits rest with
        | [], _ | _, [] => areaCodeMatch rest
        | ds, c' :: _ =>
            if Ascii.eqb c' ")" then Some ds else areaCodeMatch rest
        end
      else areaCodeMatch rest
  end.

(** [`${countryCode}`]: the text a template literal gives a number or
    [null]. *)
Definition interpolate (x : option N) : jsstring :=
  match x with
  | Some n => numberToString n
  | None => js "null"
  end.

(** [value.match(new RegExp(`^${prefix}(\\d+)`))], element [1], for a
    [prefix] of letters and digits (no character of it is special in a
    pattern): the prefix is read literally at the start of [value], then
    the longest run of one or more digits is captured. *)
Fixpoint stripPrefix (prefix value : jsstring) : option jsstring :=
  match prefix, value with
  | [], _ => Some value
  | p :: prefix', c :: value' =>
      if Ascii.eqb c p then stripPrefix prefix' value' else None
  | _ :: _, [] => None
  end.

Definition phoneNumberMatch (prefix value : jsstring) : option jsstring :=
  match stripPrefix prefix value with
  | Some rest =>
      match takeDigits rest with
      | [] => None
      | ds => Some ds
      end
  | None => None
  end.

(** [parsePhoneNumber(formattedNumber, countriesList, country)].  The
    guards [formattedNumber ? ... : []] and [value ? ... : []] only spare a
    match on the empty string, which fails anyway. *)
Definition parsePhoneNumber (formattedNumber : jsstring)
    (countriesList : list CountryRecord) (country : option string) : PhoneNumber :=
  let value := getRawValue (inr formattedNumber) in
  let isoCode := isoOf <$> getMetadata value countriesList country in
  let countryCode := countryCodeMatch formattedNumber ≫= parseInt in
  let areaCode := areaCodeMatch formattedNumber ≫= parseInt in
  let prefix := interpolate countryCode ++ truthyNumber areaCode in
  let phoneNumber := phoneNumberMatch prefix value in
  {| countryCode := countryCode; areaCode := areaCode;
     phoneNumber := phoneNumber; isoCode := isoCode |}.

(** ** Regular expressions of the validation table

    [validations.json] maps an ISO code to two pattern sources.  A pattern
    is taken as the syntax tree of its source, over the constructs such
    patterns are written with.  Groups are not represented: [test] does not
    look at captures. *)
Inductive regex : Type :=
| Empty                     (* the empty pattern *)
| Chr (c : ascii)           (* a literal character *)
| AnyDigit                  (* \d *)
| Range (lo hi : ascii)     (* [lo-hi] *)
| Seq (r1 r2 : regex)       (* r1r2 *)
| Alt (r1 r2 : regex)       (* r1|r2 *)
| Star (r : regex)          (* r* *)
| Bol                       (* ^ *)
| Eol.                      (* $ *)

(** [r{n}] *)
Fixpoint Times (n : nat) (r : regex) : regex :=
  match n with
  | O => Empty
  | S n' => Seq r (Times n' r)
  end.

(** A backtracking matcher in continuation style.  [accept r atStart s k]
    holds when [r] matches a prefix of [s] such that [k] accepts what is
    left; [atStart] tells whether [s] is the whole input, which is where
    [^] matches, and [$] matches where nothing is left (no [m] flag).  An
    iteration of [r*] that consumes nothing is not repeated. *)
Fixpoint accept (r : regex) :
    bool -> jsstring -> (bool -> jsstring -> bool) -> bool :=
  match r with
  | Empty => fun atStart s k => k atStart s
  | Chr c => fun _ s k =>
      match s with
      | x :: s' => Ascii.eqb x c && k false s'
      | [] => false
      end
  | AnyDigit => fun _ s k =>
      match s with
      | x :: s' => isDigit x && k false s'
      | [] => false
      end
  | Range lo hi => fun _ s k =>
      match s with
      | x :: s' =>
          (nat_of_ascii lo <=? nat_of_ascii x)%nat
          && (nat_of_ascii x <=? nat_of_ascii hi)%nat && k false s'
      | [] => false
      end
  | Seq r1 r2 => fun atStart s k =>
      accept r1 atStart s (fun atStart' s' => accept r2 atStart' s' k)
  | Alt r1 r2 => fun atStart s k =>
      accept r1 atStart s k || accept r2 atStart s k
  | Star r0 => fun atStart s k =>
      (fix iterate (fuel : nat) (atStart : bool) (s : jsstring) : bool :=
         k atStart s ||
         match fuel with
         | O => false
         | S fuel' =>
             accept r0 atStart s (fun atStart' s' =>
               (length s' <? length s)%nat && iterate fuel' atStart' s')
         end) (length s) atStart s
  | Bol => fun atStart s k => atStart && k atStart s
  | Eol => fun atStart s k =>
      match s with
      | [] => k atStart []
      | _ :: _ => false
      end
  end.

(** A match of [r] starting at some offset of the input. *)
Fixpoint search (r : regex) (atStart : bool) (s : jsstring) : bool :=
  accept r atStart s (fun _ _ => true) ||
  match s with
  | [] => false
  | _ :: s' => search r false s'
  end.

(** [new RegExp(pattern).test(s)]: no flag, so the search starts at offset
    [0] and succeeds on a match anywhere. *)
Definition test (r : regex) (s : jsstring) : bool := search r true s.

(** [r] matches [s] from its first to its last character. *)
Definition fullMatch (r : regex) (s : jsstring) : bool :=
  accept r true s (fun _ s' => match s' with [] => true | _ :: _ => false end).

(** ** Validator *)

(** What a call returns: a value, or the [TypeError] of reading an index
    of [undefined]. *)
Inductive result (A : Type) : Type :=
| Ok (a : A)
| TypeError.
Arguments Ok {A} a.
Arguments TypeError {A}.

(** The names every object inherits from [Object.prototype]; reading one of
    them on the table gives a function or an object, not [undefined]. *)
Definition objectPrototypeKeys : list string :=
  [ "constructor"; "__proto__"; "hasOwnProperty"; "isPrototypeOf";
    "propertyIsEnumerable"; "toLocaleString"; "toString"; "valueOf";
    "__defineGetter__"; "__defineSetter__"; "__lookupGetter__";
    "__lookupSetter__" ]%string.

Inductive property : Type :=
| Own (rule : regex * regex)   (* an entry [lenient, strict] of the table *)
| Inherited                    (* a member of [Object.prototype] *)
| Undefined.

(** [validations[key]] *)
Definition getProperty (validations : gmap string (regex * regex))
    (key : string) : property :=
  match validations !! key with
  | Some rule => Own rule
  | None => if bool_decide (key ∈ objectPrototypeKeys) then Inherited else Undefined
  end.

(** The property key an ISO code is converted to; an absent code reads the
    key ["undefined"]. *)
Definition propertyKey (isoCode : option string) : string :=
  match isoCode with
  | Some k => k
  | None => "undefined"%string
  end.

(** [checkValidity(metadata, strict)].  Indexing an inherited member by
    [0] or [1] gives [undefined], and [new RegExp(undefined)] is the empty
    pattern. *)
Definition checkValidity (validations : gmap string (regex * regex))
    (metadata : PhoneNumber) (strict : bool) : result bool :=
  let digits := truthyNumber (areaCode metadata)
                  ++ truthyString (phoneNumber metadata) in
  match getProperty validations (propertyKey (isoCode metadata)) with
  | Undefined => TypeError
  | Inherited => Ok (test Empty digits)
  | Own (lenient, strictPattern) =>
      Ok (test (if strict then strictPattern else lenient) digits)
  end.

(** ** The component's memoised helpers and its input handler *)

Module PhoneInput.

(** [first]: [[...pattern].findIndex(c => slots.has(c))] *)
Definition first (pattern : jsstring) : Z := findIndex slots_has pattern.

(** The callback of [prev], threaded with the [j] it assigns and the
    index [i]: [slots.has(c) ? j = i + 1 : j]. *)
Fixpoint prevFrom (j i : Z) (normalised : jsstring) : list Z :=
  match normalised with
  | [] => []
  | c :: rest =>
      if slots_has c then (i + 1)%Z :: prevFrom (i + 1)%Z (i + 1)%Z rest
      else j :: prevFrom j (i + 1)%Z rest
  end.

(** [prev]: [Array.from(pattern.replaceAll(/\d/g, "."), ...)] with
    [j = 0]. *)
Definition prev (pattern : jsstring) : list Z :=
  prevFrom 0%Z 0%Z (replaceDigits pattern).

(** The input element as [format] reads it: its value after the edit and
    its selection. *)
Record Target := {
  value : jsstring;
  selectionStart : nat;
  selectionEnd : nat
}.

(** The callback mapped over [[selectionStart, selectionEnd]] in
    [format]; [None] is [undefined]. *)
Definition caret (pattern : jsstring) (backRef : bool) (value : jsstring)
    (selection : nat) : option Z :=
  let i := findIndex slots_has (clean pattern (take selection value)) in
  if (i <? 0)%Z then
    at_index (prev pattern) (Z.of_nat (length (prev pattern)) - 1)%Z
  else if backRef then
    match at_index (prev pattern) (i - 1)%Z with
    | Some p => if (p =? 0)%Z then Some (first pattern) else Some p
    | None => Some (first pattern)
    end
  else Some i.

(** What [format] leaves behind: the new value of the input (also given
    to [setValue]), the arguments of [setSelectionRange], and
    [backRef.current]. *)
Record Formatted := {
  newValue : jsstring;
  newSelection : option Z * option Z;
  newBackRef : bool
}.

(** [format({target})] *)
Definition format (pattern : jsstring) (backRef : bool) (target : Target)
    : Formatted :=
  let i := caret pattern backRef (value target) (selectionStart target) in
  let j := caret pattern backRef (value target) (selectionEnd target) in
  {| newValue := displayFormat (clean pattern (value target));
     newSelection := (i, j);
     newBackRef := false |}.

End PhoneInput.

(** ** The component's derived state and handlers

    The values the component derives from its props and state with
    [useMemo], and the handlers that compose the functions above.  The
    country table [countries.json] is the parameter [countries]. *)

Module Component.

(** [list.includes(x)] for an array of ISO codes. *)
Definition includes (list : list string) (x : string) : bool :=
  existsb (String.eqb x) list.

(** [s.includes(query)]: [query] occurs in [s]. *)
Fixpoint includesText (s query : jsstring) : bool :=
  startsWith s query ||
  match s with
  | [] => false
  | _ :: s' => includesText s' query
  end.

(** [String.prototype.toLowerCase] on the code units below 256: the
    letters [A-Z] and the Latin-1 capitals (all of [192..222] but the
    multiplication sign) move up by 32. *)
Definition lowerChar (c : ascii) : ascii :=
  let n := nat_of_ascii c in
  if ((65 <=? n)%nat && (n <=? 90)%nat)
     || ((192 <=? n)%nat && (n <=? 222)%nat && negb (n =? 215)%nat)
  then ascii_of_nat (n + 32) else c.

Definition toLowerCase (s : jsstring) : jsstring := map lowerChar s.

(** [countriesOnly] *)
Definition countriesOnly (countries : list CountryRecord)
    (onlyCountries excludeCountries : list string) : list string :=
  let allowList :=
    if (0 <? length onlyCountries)%nat then onlyCountries
    else map isoOf countries in
  List.filter
    (fun iso => includes allowList iso && negb (includes excludeCountries iso))
    (map isoOf countries).

(** [name.toLowerCase().startsWith(query.toLowerCase()) ||
    dial.includes(query)] *)
Definition matchesQuery (query : jsstring) (c : CountryRecord) : bool :=
  startsWith (toLowerCase (nameOf c)) (toLowerCase query)
  || includesText (dialOf c) query.

(** [countriesList]: the countries kept by [countriesOnly] and the
    search query, the preferred ones first. *)
Definition countriesList (countries : list CountryRecord)
    (onlyCountries excludeCountries preferredCountries : list string)
    (query : jsstring) : list CountryRecord :=
  let only := countriesOnly countries onlyCountries excludeCountries in
  let filteredCountries :=
    List.filter (fun c => includes only (isoOf c) && matchesQuery query c)
      countries in
  List.filter (fun c => includes preferredCountries (isoOf c)) filteredCountries
  ++ List.filter (fun c => negb (includes preferredCountries (isoOf c)))
       filteredCountries.

(** [defaultMetadata]:
    [getMetadata(defaultValue) || countries.find(([iso]) => iso === country)] *)
Definition defaultMetadata (countries : list CountryRecord)
    (initialValue : PhoneNumber + jsstring) (country : string)
    : option CountryRecord :=
  match getMetadata (getRawValue initialValue) countries None with
  | Some c => Some c
  | None => List.find (fun c => String.eqb (isoOf c) country) countries
  end.

(** [defaultValueState]: the raw initial value, or when it is empty the
    dial code of the row of [defaultMetadata]; [None] is [undefined]. *)
Definition defaultValueState (countries : list CountryRecord)
    (initialValue : PhoneNumber + jsstring) (country : string)
    : option jsstring :=
  match getRawValue initialValue with
  | [] =>
      match defaultMetadata countries initialValue country with
      | Some d =>
          dialOf <$> List.find (fun c => String.eqb (isoOf c) (isoOf d)) countries
      | None => None
      end
  | defaultValue => Some defaultValue
  end.

(** [iso === x?.[0]] for a row [x] that may be [undefined]. *)
Definition isoIs (iso : string) (x : option CountryRecord) : bool :=
  match x with
  | Some c => String.eqb iso (isoOf c)
  | None => false
  end.

(** [metadata] *)
Definition metadata (countriesList : list CountryRecord) (countryCode : string)
    (defaultMetadata : option CountryRecord) (value : jsstring)
    : option CountryRecord :=
  let calculatedMetadata :=
    getMetadata (getRawValue (inr value)) countriesList (Some countryCode) in
  match List.find (fun c => isoIs (isoOf c) calculatedMetadata
                            || isoIs (isoOf c) defaultMetadata) countriesList with
  | None => head countriesList
  | Some _ =>
      match calculatedMetadata with
      | Some c => Some c
      | None => defaultMetadata
      end
  end.

(** [x?.[4] || rest]: an absent row and an empty mask are falsy. *)
Definition maskOr (x : option CountryRecord) (rest : jsstring) : jsstring :=
  match x with
  | Some c => match maskOf c with [] => rest | mask => mask end
  | None => rest
  end.

(** [pattern]: [metadata?.[4] || defaultMetadata?.[4] || ""] *)
Definition pattern (metadata defaultMetadata : option CountryRecord) : jsstring :=
  maskOr metadata (maskOr defaultMetadata []).

(** The payload [onChange] hands to [handleChange], without its [valid]
    closure. *)
Definition onChange (pattern : jsstring) (countriesList : list CountryRecord)
    (countryCode : string) (value : jsstring) : PhoneNumber :=
  let formattedNumber := displayFormat (clean pattern value) in
  parsePhoneNumber formattedNumber countriesList (Some countryCode).

(** The [valid] closure of a payload: [(strict) => checkValidity(phoneMetadata,
    strict)]. *)
Definition valid (validations : gmap string (regex * regex))
    (phoneMetadata : PhoneNumber) (strict : bool) : result bool :=
  checkValidity validations phoneMetadata strict.

(** [onSelect] of the option of the row [c], whose value is [iso + dial]
    and whose key is the mask: the arguments of [setValue] and of
    [setCountryCode]. *)
Definition onSelect (c : CountryRecord) : jsstring * string :=
  let mask := maskOf c in
  let selectedOption := (isoOf c ++ string_of_list_ascii (dialOf c))%string in
  (displayFormat (cleanInput mask mask), String.substring 0 2 selectedOption).

(** What the mount effect reports and stores. *)
Record Mounted := {
  mountedValue : jsstring;
  mountedPhone : PhoneNumber
}.

(** The mount effect.  It does nothing once [initiatedRef.current] is set.
    Without a [metadata] row the raw value does not start with the text
    [undefined], so it is replaced by [undefined], on which [clean] fails. *)
Definition mountEffect (initiated : bool) (pattern : jsstring)
    (metadata : option CountryRecord) (countriesList : list CountryRecord)
    (value : jsstring) : result (option Mounted) :=
  if initiated then Ok None
  else
    match metadata with
    | None => TypeError
    | Some m =>
        let initialValue :=
          if startsWith (getRawValue (inr value)) (dialOf m)
          then getRawValue (inr value) else dialOf m in
        let formattedNumber := displayFormat (clean pattern initialValue) in
        Ok (Some {| mountedValue := formattedNumber;
                    mountedPhone :=
                      parsePhoneNumber formattedNumber countriesList None |})
    end.

End Component.

(** The index of the slot that follows [n] slots of a template. *)
Fixpoint nthSlot (t : jsstring) (n : nat) : option nat :=
  match t with
  | [] => None
  | c :: t' =>
      if slots_has c then
        match n with
        | O => Some O
        | S n' => S <$> nthSlot t' n'
        end
      else S <$> nthSlot t' n
  end.

(** ** Vocabulary of the statements *)

(** No literal digit of the template comes after a slot marker. *)
Fixpoint noDigitAfterSlot (pattern : jsstring) : bool :=
  match pattern with
  | [] => true
  | c :: pattern' =>
      if slots_has c then forallb (fun a => negb (isDigit a)) pattern'
      else noDigitAfterSlot pattern'
  end.

(** A candidate qualifies when its dial code starts the raw digits and,
    with a pin, its ISO code is the pin. *)
Definition qualifies (rawValue : jsstring) (country : option string)
    (c : CountryRecord) : Prop :=
  dialOf c `prefix_of` rawValue /\ forall k, country = Some k -> isoOf c = k.

(** The formatted value contains a [+] immediately followed by a digit. *)
Definition hasPlusDigits (formattedNumber : jsstring) : Prop :=
  exists before d after,
    formattedNumber = before ++ "+" :: d :: after /\ isDigit d = true.

(** The subscriber number as the specification words it: the capture of a
    pattern anchored at the start of the raw digits, made of the
    country-code digits as they were extracted, then the area-code digits as
    they were extracted when there are any, then one or more digits. *)
Definition subscriberBySpec (countryDigits : jsstring)
    (areaDigits : option jsstring) (rawDigits : jsstring) : option jsstring :=
  phoneNumberMatch (countryDigits ++ default [] areaDigits) rawDigits.

(** The digit string the validator tests, as the specification words it:
    the area code when present, then the subscriber number when present. *)
Definition nationalDigits (metadata : PhoneNumber) : jsstring :=
  match areaCode metadata with
  | Some a => numberToString a
  | None => []
  end ++
  match phoneNumber metadata with
  | Some s => s
  | None => []
  end.

(** [s] is the empty string. *)
Definition isEmpty (s : jsstring) : bool :=
  match s with
  | [] => true
  | _ :: _ => false
  end.

(** The formatted display of a phone number given by its fields: its raw
    digits formatted with the template and trimmed, as the component does
    with its initial value. *)
Definition formatNumber (pattern : jsstring) (n : PhoneNumber) : jsstring :=
  displayFormat (clean pattern (getRawValue (inl n))).

(** A run of [n] slot markers. *)
Definition dots (n : nat) : jsstring := replicate n "."%char.

(** The number of slots of a template. *)
Definition slotCount (t : jsstring) : nat := length (List.filter slots_has t).

(** The template of a country whose numbers are a [+], the digits of the
    country code [cc], separators [sep], the digits of the area code between
    parentheses when there is one, and [rest] for the subscriber number. *)
Definition templateFor (cc : N) (ac : option N) (sep rest : jsstring) : jsstring :=
  "+"%char :: dots (length (numberToString cc)) ++ sep ++
  match ac with
  | Some a => "("%char :: dots (length (numberToString a)) ++ ")"%char :: rest
  | None => rest
  end.

(** [s] does not start with a digit. *)
Definition startsNonDigit (s : jsstring) : Prop :=
  match s with
  | [] => True
  | c :: _ => isDigit c = false
  end.

(** * Properties *)

(** ** Characters and digit runs *)

Lemma slots_has_true (c : ascii) : slots_has c = true <-> c = ".".
Proof.
  unfold slots_has, slots. rewrite bool_decide_eq_true. set_solver.
Qed.

Lemma slots_has_false (c : ascii) : slots_has c = false <-> c <> ".".
Proof.
  rewrite <- slots_has_true. destruct (slots_has c); intuition congruence.
Qed.

Lemma slot_not_digit (c : ascii) : slots_has c = true -> isDigit c = false.
Proof. intros H. apply slots_has_true in H. now subst. Qed.

Lemma digit_not_slot (c : ascii) : isDigit c = true -> slots_has c = false.
Proof.
  intros H. destruct (slots_has c) eqn:E; [|reflexivity].
  apply slot_not_digit in E. congruence.
Qed.

Lemma matchDigits_all (s : jsstring) : Forall (fun c => isDigit c = true) (matchDigits s).
Proof.
  apply List.Forall_forall. intros c Hc. apply List.filter_In in Hc. tauto.
Qed.

Lemma matchDigits_id (s : jsstring) :
  Forall (fun c => isDigit c = true) s -> matchDigits s = s.
Proof.
  induction 1 as [|c s Hc _ IH]; simpl; [reflexivity|].
  rewrite Hc. now f_equal.
Qed.

Lemma matchDigits_none (s : jsstring) :
  Forall (fun c => isDigit c = false) s -> matchDigits s = [].
Proof.
  induction 1 as [|c s Hc _ IH]; simpl; [reflexivity|]. now rewrite Hc.
Qed.

Lemma matchDigits_app (s1 s2 : jsstring) :
  matchDigits (s1 ++ s2) = matchDigits s1 ++ matchDigits s2.
Proof. apply List.filter_app. Qed.

Lemma head_is_true (q : jsstring) (c : ascii) :
  head_is q c = true -> exists q', q = c :: q'.
Proof.
  destruct q as [|d q']; simpl; [discriminate|].
  intros H. apply Ascii.eqb_eq in H. subst. eauto.
Qed.

Lemma head_is_digits (q : jsstring) (c : ascii) :
  Forall (fun d => isDigit d = true) q -> isDigit c = false -> head_is q c = false.
Proof.
  intros Hq Hc. destruct (head_is q c) eqn:E; [|reflexivity].
  apply head_is_true in E as [q' ->]. inversion Hq; congruence.
Qed.

(** ** Mask formatter *)

Section MaskFormatter.

Implicit Types (queue pattern t x : jsstring) (c d : ascii).

Lemma fill_length queue pattern : length (fill queue pattern) = length pattern.
Proof.
  revert queue. induction pattern as [|c p IH]; intros queue; simpl; [reflexivity|].
  destruct (head_is queue c || slots_has c); [destruct queue|]; simpl; now rewrite IH.
Qed.

Lemma fill_nil pattern : fill [] pattern = pattern.
Proof.
  induction pattern as [|c p IH]; simpl; [reflexivity|].
  destruct (slots_has c); now rewrite IH.
Qed.

(** Position by position: a literal is copied, a slot shows its marker
    or an element of the queue. *)
Lemma fill_lookup pattern : forall queue i c,
  pattern !! i = Some c ->
  (slots_has c = true ->
     fill queue pattern !! i = Some c
     \/ exists d, fill queue pattern !! i = Some d /\ d ∈ queue)
  /\ (slots_has c = false -> fill queue pattern !! i = Some c).
Proof.
  induction pattern as [|a p IH]; intros queue i c Hi; [discriminate|].
  destruct i as [|i]; simpl in Hi.
  - injection Hi as ->. simpl.
    destruct (head_is queue c) eqn:Hh; simpl.
    + apply head_is_true in Hh as [q' ->]. simpl. split; auto.
    + destruct (slots_has c) eqn:Hs; split; try discriminate; auto.
      intros _. destruct queue as [|d q']; simpl; [now left|].
      right. exists d. split; [reflexivity|]. apply list_elem_of_here.
  - simpl.
    destruct (head_is queue a || slots_has a); [destruct queue as [|d q']|];
      simpl; try apply IH; try assumption.
    destruct (IH q' i c Hi) as [H1 H2]. split; [|assumption].
    intros Hs. destruct (H1 Hs) as [H|[d' [H Hin]]]; [now left|].
    right. exists d'. split; [assumption|]. now apply list_elem_of_further.
Qed.

Lemma noDigit_noDigitAfterSlot pattern :
  forallb (fun a => negb (isDigit a)) pattern = true -> noDigitAfterSlot pattern = true.
Proof.
  induction pattern as [|c p IH]; simpl; [reflexivity|].
  intros H. apply andb_prop in H as [_ H]. destruct (slots_has c); auto.
Qed.

Lemma noDigit_Forall pattern :
  forallb (fun a => negb (isDigit a)) pattern = true ->
  Forall (fun a => isDigit a = false) pattern.
Proof.
  intros H. apply List.Forall_forall. intros a Ha.
  rewrite List.forallb_forall in H. apply H in Ha.
  now apply negb_true_iff in Ha.
Qed.

Lemma replaceDigits_noDigit pattern :
  forallb (fun a => negb (isDigit a)) (replaceDigits pattern) = true.
Proof.
  induction pattern as [|c p IH]; simpl; [reflexivity|].
  rewrite IH, andb_true_r. destruct (isDigit c) eqn:E; [reflexivity|].
  now rewrite E.
Qed.

(** Re-feeding the digits of a formatted sequence gives it back, as long
    as the queue never meets a literal digit once it may be empty. *)
Lemma fill_again pattern : forall queue,
  Forall (fun d => isDigit d = true) queue ->
  noDigitAfterSlot pattern = true ->
  fill (matchDigits (fill queue pattern)) pattern = fill queue pattern.
Proof.
  induction pattern as [|c p IH]; intros queue Hq Hp; [reflexivity|].
  simpl in Hp. simpl fill at 2 3.
  destruct (slots_has c) eqn:Hs.
  - (* a slot: nothing after it is a digit *)
    rewrite orb_true_r.
    pose proof (noDigit_noDigitAfterSlot _ Hp) as Hp'.
    destruct queue as [|d q'].
    + rewrite fill_nil. simpl. rewrite (slot_not_digit _ Hs).
      rewrite (matchDigits_none p (noDigit_Forall _ Hp)).
      simpl. now rewrite Hs, fill_nil.
    + inversion Hq as [|? ? Hd Hq']; subst.
      simpl. rewrite Hd. simpl. rewrite Hs, orb_true_r.
      f_equal. now apply IH.
  - rewrite orb_false_r. destruct (head_is queue c) eqn:Hh.
    + (* a literal digit that the queue starts with *)
      apply head_is_true in Hh as [q' ->].
      inversion Hq as [|? ? Hd Hq']; subst.
      simpl. rewrite Hd. simpl. rewrite Ascii.eqb_refl. simpl.
      f_equal. now apply IH.
    + destruct (isDigit c) eqn:Hd; simpl; rewrite Hd.
      * simpl. rewrite Ascii.eqb_refl. simpl. f_equal. now apply IH.
      * simpl. rewrite Hs, orb_false_r.
        rewrite (head_is_digits _ c (matchDigits_all _) Hd).
        f_equal. now apply IH.
Qed.

End MaskFormatter.

(** C1. For every input [x] and template [t], [cleanInput(x, t)] has the
    length of [t]; a slot position holds the slot's marker or a digit taken
    from [x], and a literal position holds the literal of the template. *)
Theorem cleanInput_shape (x t : jsstring) :
  length (cleanInput x t) = length t
  /\ forall (i : nat) (c : ascii), t !! i = Some c ->
       (slots_has c = true ->
          cleanInput x t !! i = Some c
          \/ exists d, cleanInput x t !! i = Some d /\ isDigit d = true /\ d ∈ x)
       /\ (slots_has c = false -> cleanInput x t !! i = Some c).
Proof.
  unfold cleanInput. split; [apply fill_length|].
  intros i c Hi. destruct (fill_lookup t (matchDigits x) i c Hi) as [H1 H2].
  split; [|assumption].
  intros Hs. destruct (H1 Hs) as [H|[d [H Hd]]]; [now left|].
  right. exists d. split; [assumption|].
  apply list_elem_of_In, List.filter_In in Hd. destruct Hd as [Hin Hd].
  split; [assumption|]. now apply list_elem_of_In.
Qed.

(** C2, as the code has it.  Formatting the digits of a formatted sequence
    with the same template gives that sequence again, for every input and
    every template in which no literal digit follows a slot marker.  The
    component formats its input through [clean], whose template has no
    literal digit left: there this holds for every pattern. *)
Theorem cleanInput_idempotent (x t : jsstring) :
  (noDigitAfterSlot t = true ->
   cleanInput (matchDigits (cleanInput x t)) t = cleanInput x t)
  /\ clean t (matchDigits (clean t x)) = clean t x.
Proof.
  unfold clean, cleanInput.
  rewrite !(matchDigits_id (matchDigits _)) by apply matchDigits_all.
  split.
  - intros Ht. apply fill_again; [apply matchDigits_all | assumption].
  - apply fill_again; [apply matchDigits_all|].
    apply noDigit_noDigitAfterSlot, replaceDigits_noDigit.
Qed.

Lemma cleanInput_idempotent_witness :
  noDigitAfterSlot (js "+1 (...) ...-....") = true
  /\ cleanInput (matchDigits (cleanInput (js "1202") (js "+1 (...) ...-....")))
       (js "+1 (...) ...-....")
     = cleanInput (js "1202") (js "+1 (...) ...-....").
Proof.
  split; [reflexivity|].
  apply (proj1 (cleanInput_idempotent (js "1202") (js "+1 (...) ...-...."))).
  reflexivity.
Defined.

(** C2, as stated, fails when a literal digit follows a slot: the unfilled
    slot of [".1"] is filled, the second time, by the literal [1] the first
    pass left behind it. *)
Lemma cleanInput_not_idempotent :
  cleanInput (js "") (js ".1") = js ".1"
  /\ cleanInput (matchDigits (cleanInput (js "") (js ".1"))) (js ".1") = js "11"
  /\ cleanInput (matchDigits (cleanInput (js "") (js ".1"))) (js ".1")
     <> cleanInput (js "") (js ".1").
Proof. repeat split; vm_compute; congruence. Qed.

(** ** Country matcher *)

Section CountryMatcher.

Lemma startsWith_prefix (rawValue prefix : jsstring) :
  startsWith rawValue prefix = true <-> prefix `prefix_of` rawValue.
Proof.
  revert rawValue.
  induction prefix as [|p prefix IH]; intros [|c rawValue]; simpl.
  - split; [intros _; apply prefix_nil | reflexivity].
  - split; [intros _; apply prefix_nil | reflexivity].
  - split; [discriminate|]. intros [k Hk]. discriminate.
  - idtac.
    rewrite andb_true_iff, Ascii.eqb_eq, IH. split.
    + intros [-> Hp]. now apply prefix_cons.
    + intros [k Hk]. injection Hk as -> ->. split; [reflexivity|].
      now exists k.
Qed.

Lemma pinned_spec (country : option string) (c : CountryRecord) :
  pinned country c = true <-> forall k, country = Some k -> isoOf c = k.
Proof.
  destruct country as [k|]; simpl.
  - rewrite String.eqb_eq. split.
    + intros -> k' [= <-]. reflexivity.
    + intros H. symmetry. now apply H.
  - split; [discriminate | reflexivity].
Qed.

Lemma qualifies_spec rawValue country c :
  startsWith rawValue (dialOf c) && pinned country c = true
  <-> qualifies rawValue country c.
Proof.
  unfold qualifies. now rewrite andb_true_iff, startsWith_prefix, pinned_spec.
Qed.

Lemma getMetadata_Some rawValue country (countriesList : list CountryRecord) c :
  getMetadata rawValue countriesList country = Some c
  <-> exists before after,
        countriesList = before ++ c :: after
        /\ qualifies rawValue country c
        /\ Forall (fun c' => ~ qualifies rawValue country c') before.
Proof.
  unfold getMetadata.
  induction countriesList as [|a l IH]; simpl.
  - split; [discriminate|]. intros (before & after & H & _).
    now destruct before.
  - destruct (startsWith rawValue (dialOf a) && pinned country a) eqn:E.
    + split.
      * intros [= ->]. exists [], l. split; [reflexivity|].
        split; [now apply qualifies_spec | constructor].
      * intros (before & after & H & Hc & Hb).
        destruct before as [|b before]; simpl in H; injection H as -> ->.
        -- reflexivity.
        -- inversion Hb as [|? ? Hn _]; subst. exfalso. apply Hn.
           now apply qualifies_spec.
    + rewrite IH. split.
      * intros (before & after & -> & Hc & Hb). exists (a :: before), after.
        split; [reflexivity|]. split; [assumption|].
        constructor; [|assumption].
        rewrite <- qualifies_spec. congruence.
      * intros (before & after & H & Hc & Hb).
        destruct before as [|b before]; simpl in H; injection H as -> ->.
        -- apply qualifies_spec in Hc. congruence.
        -- inversion Hb; subst. now exists before, after.
Qed.

Lemma getMetadata_None rawValue country (countriesList : list CountryRecord) :
  getMetadata rawValue countriesList country = None
  <-> Forall (fun c' => ~ qualifies rawValue country c') countriesList.
Proof.
  unfold getMetadata.
  induction countriesList as [|a l IH]; simpl.
  - split; [constructor | reflexivity].
  - destruct (startsWith rawValue (dialOf a) && pinned country a) eqn:E.
    + split; [discriminate|]. intros H. inversion H as [|? ? Hn _]; subst.
      exfalso. apply Hn. now apply qualifies_spec.
    + rewrite IH. split.
      * intros H. constructor; [|assumption].
        rewrite <- qualifies_spec. congruence.
      * intros H. now inversion H.
Qed.

End CountryMatcher.

(** C3. The matcher returns the first candidate, in list order, whose dial
    code is a prefix of the raw digits and, when a pin is given, whose ISO
    code is the pin; it returns nothing exactly when no candidate
    qualifies.  With no pin, the digits [1416] and candidates [ca, us, ...]
    where [ca] has the dial code [1], the match is [ca]. *)
Theorem getMetadata_first_qualifying (rawValue : jsstring)
    (countriesList : list CountryRecord) (country : option string) :
  (forall c,
     getMetadata rawValue countriesList country = Some c
     <-> exists before after,
           countriesList = before ++ c :: after
           /\ qualifies rawValue country c
           /\ Forall (fun c' => ~ qualifies rawValue country c') before)
  /\ (getMetadata rawValue countriesList country = None
      <-> Forall (fun c' => ~ qualifies rawValue country c') countriesList)
  /\ (forall ca us rest,
        dialOf ca = js "1" ->
        getMetadata (js "1416") (ca :: us :: rest) None = Some ca).
Proof.
  split; [|split].
  - intros c. apply getMetadata_Some.
  - apply getMetadata_None.
  - intros ca us rest Hd. apply getMetadata_Some. exists [], (us :: rest).
    split; [reflexivity|]. split; [|constructor].
    split; [|discriminate]. rewrite Hd. now exists (js "416").
Qed.

Lemma getMetadata_first_qualifying_witness :
  getMetadata (js "1416")
    [ {| isoOf := "ca"; nameOf := js "Canada"; regionsOf := [];
         dialOf := js "1"; maskOf := js "+1 (...) ...-...." |};
      {| isoOf := "us"; nameOf := js "United States"; regionsOf := [];
         dialOf := js "1"; maskOf := js "+1 (...) ...-...." |} ] None
  = Some {| isoOf := "ca"; nameOf := js "Canada"; regionsOf := [];
            dialOf := js "1"; maskOf := js "+1 (...) ...-...." |}.
Proof.
  apply (getMetadata_first_qualifying [] [] None). reflexivity.
Defined.

(** ** Phone number parser *)

Section Parser.

Lemma countryCodeMatch_None (formattedNumber : jsstring) :
  ~ hasPlusDigits formattedNumber -> countryCodeMatch formattedNumber = None.
Proof.
  induction formattedNumber as [|c rest IH]; intros Hno; simpl; [reflexivity|].
  assert (Hrest : countryCodeMatch rest = None).
  { apply IH. intros (before & d & after & -> & Hd). apply Hno.
    now exists (c :: before), d, after. }
  destruct (Ascii.eqb c "+") eqn:Hc; [|assumption].
  apply Ascii.eqb_eq in Hc. subst c.
  destruct rest as [|d rest']; simpl; [reflexivity|].
  destruct (isDigit d) eqn:Hd; [|assumption].
  exfalso. apply Hno. now exists [], d, rest'.
Qed.

(** A pattern that starts with a letter matches no string of digits. *)
Lemma phoneNumberMatch_letter (a : ascii) (prefix value : jsstring) :
  isDigit a = false ->
  Forall (fun c => isDigit c = true) value ->
  phoneNumberMatch (a :: prefix) value = None.
Proof.
  intros Ha Hv. unfold phoneNumberMatch.
  destruct value as [|c value]; simpl; [reflexivity|].
  inversion Hv as [|? ? Hc _]; subst.
  destruct (Ascii.eqb c a) eqn:E; [|reflexivity].
  apply Ascii.eqb_eq in E. congruence.
Qed.

End Parser.

(** C10. When the formatted value has no [+] followed by digits, the
    parsed country code is absent and so is the subscriber number, whatever
    the raw digits are: the pattern then starts with the text [null]. *)
Theorem parsePhoneNumber_without_country_code (formattedNumber : jsstring)
    (countriesList : list CountryRecord) (country : option string) :
  ~ hasPlusDigits formattedNumber ->
  countryCode (parsePhoneNumber formattedNumber countriesList country) = None
  /\ phoneNumber (parsePhoneNumber formattedNumber countriesList country) = None.
Proof.
  intros Hno. unfold parsePhoneNumber. simpl.
  rewrite (countryCodeMatch_None _ Hno). simpl. split; [reflexivity|].
  apply phoneNumberMatch_letter; [reflexivity | apply matchDigits_all].
Qed.

Lemma parsePhoneNumber_without_country_code_witness :
  matchDigits (js "(202) 555-1234") = js "2025551234"
  /\ phoneNumber (parsePhoneNumber (js "(202) 555-1234") [] None) = None.
Proof.
  split; [reflexivity|].
  apply (parsePhoneNumber_without_country_code (js "(202) 555-1234") [] None).
  intros (before & d & after & H & _).
  assert (Hin : In "+" (js "(202) 555-1234")).
  { rewrite H. apply List.in_or_app. right. now left. }
  vm_compute in Hin. intuition discriminate.
Defined.

(** C4, where the code departs from it.  In [+1 (000) 555-1234] the
    country-code run is [1] and the area-code run is [000], so the area code
    is present.  The pattern made of these digits captures [5551234].  The
    parser builds its pattern from the integers instead, leaves the area
    code [0] out of it as if it were absent, and returns [0005551234], area
    code included. *)
Theorem parsePhoneNumber_zero_area (countriesList : list CountryRecord)
    (country : option string) :
  let formattedNumber := js "+1 (000) 555-1234" in
  let parsed := parsePhoneNumber formattedNumber countriesList country in
  countryCodeMatch formattedNumber = Some (js "+1")
  /\ areaCodeMatch formattedNumber = Some (js "000")
  /\ countryCode parsed = Some 1%N
  /\ areaCode parsed = Some 0%N
  /\ phoneNumber parsed = Some (js "0005551234")
  /\ subscriberBySpec (js "1") (Some (js "000")) (getRawValue (inr formattedNumber))
     = Some (js "5551234")
  /\ subscriberBySpec (js "1") (Some (numberToString 0)) (getRawValue (inr formattedNumber))
     = Some (js "005551234").
Proof. repeat split. Qed.

(** The same loss for an area code that starts with a zero: the run [012]
    becomes the integer [12], the pattern [^112(\d+)] does not match the raw
    digits [10123456789], and no subscriber number is returned. *)
Example parsePhoneNumber_leading_zero_area :
  let formattedNumber := js "+1 (012) 345-6789" in
  let parsed := parsePhoneNumber formattedNumber [] None in
  areaCodeMatch formattedNumber = Some (js "012")
  /\ areaCode parsed = Some 12%N
  /\ phoneNumber parsed = None
  /\ subscriberBySpec (js "1") (Some (js "012")) (getRawValue (inr formattedNumber))
     = Some (js "3456789").
Proof. repeat split. Qed.

(** ** Validator *)

Section Validator.

Variable validations : gmap string (regex * regex).

Lemma search_spec (r : regex) (s : jsstring) (atStart : bool) :
  search r atStart s = true
  <-> exists before after,
        s = before ++ after
        /\ accept r (atStart && isEmpty before) after (fun _ _ => true) = true.
Proof.
  revert atStart. induction s as [|c s IH]; intros atStart; simpl.
  - rewrite orb_false_r. split.
    + intros H. exists [], []. now rewrite andb_true_r.
    + intros (before & after & H & Hacc).
      symmetry in H. apply app_eq_nil in H as [-> ->].
      now rewrite andb_true_r in Hacc.
  - rewrite orb_true_iff, IH. split.
    + intros [H|(before & after & -> & H)].
      * exists [], (c :: s). now rewrite andb_true_r.
      * exists (c :: before), after. now rewrite andb_false_r.
    + intros (before & after & H & Hacc). destruct before as [|b before].
      * simpl in H. subst after. left. now rewrite andb_true_r in Hacc.
      * injection H as -> ->. right. exists before, after.
        now rewrite andb_false_r in Hacc.
Qed.

Lemma search_anchored_later (r : regex) (s : jsstring) :
  search (Seq Bol r) false s = false.
Proof. induction s as [|c s IH]; simpl; [reflexivity | exact IH]. Qed.

Lemma test_anchored (r : regex) (s : jsstring) :
  test (Seq Bol (Seq r Eol)) s = fullMatch r s.
Proof.
  unfold test, fullMatch. destruct s as [|c s]; simpl.
  - now rewrite orb_false_r.
  - now rewrite search_anchored_later, orb_false_r.
Qed.

Lemma truthyNumber_present (a : option N) :
  a <> Some 0%N ->
  truthyNumber a = match a with Some n => numberToString n | None => [] end.
Proof.
  destruct a as [n|]; simpl; [|reflexivity].
  intros H. destruct (N.eqb_spec n 0); [subst; congruence | reflexivity].
Qed.

Lemma prototype_key_length (k : string) :
  k ∈ objectPrototypeKeys -> String.length k <> 2%nat.
Proof.
  unfold objectPrototypeKeys. rewrite !elem_of_cons, elem_of_nil.
  intros H. repeat (destruct H as [->|H]; [discriminate|]). destruct H.
Qed.

Lemma getProperty_iso (k : string) :
  String.length k = 2%nat ->
  getProperty validations k
  = match validations !! k with Some rule => Own rule | None => Undefined end.
Proof.
  intros Hk. unfold getProperty. destruct (validations !! k); [reflexivity|].
  rewrite bool_decide_eq_false_2; [reflexivity|].
  intros Hin. now apply prototype_key_length in Hin.
Qed.

Lemma getProperty_undefined :
  map_Forall (fun k _ => String.length k = 2%nat) validations ->
  getProperty validations "undefined" = Undefined.
Proof.
  intros Hkeys. unfold getProperty.
  destruct (validations !! "undefined"%string) as [rule|] eqn:E.
  - apply Hkeys in E. discriminate.
  - rewrite bool_decide_eq_false_2; [reflexivity|].
    unfold objectPrototypeKeys. rewrite !elem_of_cons, elem_of_nil.
    intros H. repeat (destruct H as [H|H]; [discriminate|]). destruct H.
Qed.

End Validator.

(** C6, as the code has it.  For an ISO code of the table the validator
    takes the strict pattern when [strict] holds and the lenient one
    otherwise, and tests it on the area code (when present, and not zero)
    followed by the subscriber number (when present).  The test is a search:
    it succeeds when the pattern matches at some offset of that digit
    string.  It is a match of the whole string when the pattern of the table
    is anchored at both ends. *)
Theorem checkValidity_searches (validations : gmap string (regex * regex))
    (metadata : PhoneNumber) (strict : bool) (iso : string)
    (lenient strictPattern : regex) :
  isoCode metadata = Some iso ->
  validations !! iso = Some (lenient, strictPattern) ->
  areaCode metadata <> Some 0%N ->
  let pattern := if strict then strictPattern else lenient in
  checkValidity validations metadata strict
  = Ok (test pattern (nationalDigits metadata))
  /\ (test pattern (nationalDigits metadata) = true
      <-> exists before after,
            nationalDigits metadata = before ++ after
            /\ accept pattern (isEmpty before) after (fun _ _ => true) = true)
  /\ (forall r, pattern = Seq Bol (Seq r Eol) ->
        test pattern (nationalDigits metadata) = fullMatch r (nationalDigits metadata)).
Proof.
  intros Hiso Hrule Harea pattern. split; [|split].
  - unfold checkValidity, getProperty, nationalDigits.
    rewrite Hiso. simpl. rewrite Hrule.
    now rewrite (truthyNumber_present _ Harea).
  - unfold test. now rewrite search_spec.
  - intros r ->. apply test_anchored.
Qed.

Lemma checkValidity_searches_witness :
  checkValidity {[ "us"%string := (Seq Bol (Seq (Times 10 AnyDigit) Eol),
                                   Seq Bol (Seq (Seq (Range "2" "9") (Times 9 AnyDigit)) Eol)) ]}
    {| countryCode := Some 1%N; areaCode := Some 202%N;
       phoneNumber := Some (js "5551234"); isoCode := Some "us"%string |} true
  = Ok true.
Proof.
  refine (eq_trans (proj1 (checkValidity_searches _ _ true "us"%string
            (Seq Bol (Seq (Times 10 AnyDigit) Eol))
            (Seq Bol (Seq (Seq (Range "2" "9") (Times 9 AnyDigit)) Eol)) _ _ _)) _).
  - reflexivity.
  - apply lookup_singleton_eq.
  - discriminate.
  - reflexivity.
Defined.

(** C6, as stated, fails: against an entry of the table that is not
    anchored, eight digits pass the test of a seven-digit pattern which
    does not match them from first to last. *)
Lemma checkValidity_not_full_match :
  checkValidity {[ "us"%string := (Times 7 AnyDigit, Times 7 AnyDigit) ]}
    {| countryCode := Some 1%N; areaCode := None;
       phoneNumber := Some (js "12345678"); isoCode := Some "us"%string |} false
  = Ok true
  /\ fullMatch (Times 7 AnyDigit) (js "12345678") = false.
Proof.
  split; [|reflexivity].
  unfold checkValidity, getProperty. simpl. now rewrite lookup_singleton_eq.
Qed.

(** C7. For a table keyed by two-letter ISO codes and a phone number whose
    ISO code, when present, has two letters, the validator fails exactly
    when the ISO code is absent or has no entry in the table, and returns a
    boolean for every ISO code of the table. *)
Theorem checkValidity_fails_iff_no_rule (validations : gmap string (regex * regex))
    (metadata : PhoneNumber) (strict : bool) :
  map_Forall (fun k _ => String.length k = 2%nat) validations ->
  (forall k, isoCode metadata = Some k -> String.length k = 2%nat) ->
  (checkValidity validations metadata strict = TypeError
   <-> isoCode metadata = None
       \/ exists k, isoCode metadata = Some k /\ validations !! k = None)
  /\ (forall k, isoCode metadata = Some k -> is_Some (validations !! k) ->
        exists b, checkValidity validations metadata strict = Ok b).
Proof.
  intros Hkeys Hiso. unfold checkValidity.
  destruct (isoCode metadata) as [k|] eqn:E; simpl.
  - rewrite (getProperty_iso _ k (Hiso k eq_refl)).
    destruct (validations !! k) as [[lenient strictPattern]|] eqn:Hk.
    + split.
      * split; [discriminate|]. intros [H|(k' & [= <-] & H)]; congruence.
      * intros k' [= <-] _. eauto.
    + split.
      * split; [|reflexivity]. intros _. right. eauto.
      * intros k' [= <-] [rule Hr]. congruence.
  - rewrite (getProperty_undefined _ Hkeys). split.
    + split; [now left | reflexivity].
    + intros k [=].
Qed.

Lemma checkValidity_fails_iff_no_rule_witness :
  checkValidity {[ "us"%string := (Times 7 AnyDigit, Times 10 AnyDigit) ]}
    {| countryCode := None; areaCode := None; phoneNumber := None;
       isoCode := Some "zz"%string |} false
  = TypeError.
Proof.
  refine (proj2 (proj1 (checkValidity_fails_iff_no_rule _ _ false _ _)) _).
  - apply map_Forall_singleton. reflexivity.
  - intros k [= <-]. reflexivity.
  - right. exists "zz"%string. split; [reflexivity|].
    now apply lookup_singleton_ne.
Defined.

(** ** Cursor tracker *)

Section CursorTracker.

Import PhoneInput.
Local Open Scope Z_scope.

Lemma findIndexFrom_found {A} (p : A -> bool) (l : list A) : forall i,
  0 <= i -> 0 <= findIndexFrom p i l ->
  exists n : nat,
    findIndexFrom p i l = i + Z.of_nat n
    /\ (exists c, l !! n = Some c /\ p c = true)
    /\ forall (m : nat) c, (m < n)%nat -> l !! m = Some c -> p c = false.
Proof.
  induction l as [|a l IH]; intros i Hi Hr; simpl in *; [lia|].
  destruct (p a) eqn:Ha.
  - exists 0%nat. split; [lia|]. split; [eauto|]. intros m c Hm. lia.
  - destruct (IH (i + 1) ltac:(lia) Hr) as (n & Hn & Hc & Hbefore).
    exists (S n). split; [lia|]. split; [exact Hc|].
    intros [|m] c Hm Hl; simpl in Hl; [congruence|].
    apply (Hbefore m); [lia | assumption].
Qed.

Lemma findIndexFrom_upper {A} (p : A -> bool) (l : list A) : forall i,
  findIndexFrom p i l = -1
  \/ i <= findIndexFrom p i l < i + Z.of_nat (length l).
Proof.
  induction l as [|a l IH]; intros i; [now left|].
  cbn [findIndexFrom length]. rewrite Nat2Z.inj_succ.
  destruct (p a); [lia|]. destruct (IH (i + 1)) as [H|H]; lia.
Qed.

Lemma findIndexFrom_In {A} (p : A -> bool) (l : list A) (x : A) : forall i,
  0 <= i -> In x l -> p x = true -> 0 <= findIndexFrom p i l.
Proof.
  induction l as [|a l IH]; intros i Hi Hin Hx; [destruct Hin|]. simpl.
  destruct (p a) eqn:Ha; [lia|].
  destruct Hin as [->|Hin]; [congruence|]. apply IH; [lia | assumption..].
Qed.

Lemma prevFrom_length (l : jsstring) : forall j i, length (prevFrom j i l) = length l.
Proof.
  induction l as [|a l IH]; intros j i; simpl; [reflexivity|].
  destruct (slots_has a); simpl; now rewrite IH.
Qed.

(** An entry of the table is the offset just after the nearest slot at
    or before its index, and the initial [j] when there is none. *)
Lemma prevFrom_lookup (l : jsstring) : forall j i (n : nat) v,
  prevFrom j i l !! n = Some v ->
  ((forall (m : nat) c, (m <= n)%nat -> l !! m = Some c -> slots_has c = false)
   /\ v = j)
  \/ exists (k : nat) c,
       (k <= n)%nat /\ l !! k = Some c /\ slots_has c = true
       /\ (forall (m : nat) c', (k < m <= n)%nat -> l !! m = Some c' ->
             slots_has c' = false)
       /\ v = i + Z.of_nat k + 1.
Proof.
  induction l as [|a l IH]; intros j i n v Hv; [discriminate|].
  simpl in Hv. destruct n as [|n].
  - destruct (slots_has a) eqn:Ha; injection Hv as <-.
    + right. exists 0%nat, a. repeat split; try assumption; try lia.
    + left. split; [|reflexivity].
      intros [|m] c Hm Hl; [|lia]. simpl in Hl. congruence.
  - assert (Htail : exists j', prevFrom j' (i + 1) l !! n = Some v
                      /\ j' = if slots_has a then i + 1 else j).
    { destruct (slots_has a); simpl in Hv; eauto. }
    destruct Htail as (j' & Hv' & Hj').
    destruct (IH _ _ _ _ Hv') as [[Hnone ->]|(k & c & Hk & Hc & Hs & Hafter & ->)].
    + destruct (slots_has a) eqn:Ha.
      * right. exists 0%nat, a. repeat split; try assumption; try lia.
        intros [|m] c' Hm Hl; [lia|]. simpl in Hl. apply (Hnone m); [lia|assumption].
      * left. split; [|assumption].
        intros [|m] c Hm Hl; simpl in Hl; [congruence|].
        apply (Hnone m); [lia|assumption].
    + right. exists (S k), c. repeat split; try assumption; try lia.
      intros [|m] c' Hm Hl; [lia|]. simpl in Hl. apply (Hafter m); [lia|assumption].
Qed.

Lemma prev_length (pattern : jsstring) : length (prev pattern) = length pattern.
Proof. unfold prev, replaceDigits. now rewrite prevFrom_length, length_map. Qed.

Lemma clean_length (pattern input : jsstring) :
  length (clean pattern input) = length pattern.
Proof. unfold clean, cleanInput, replaceDigits. now rewrite fill_length, length_map. Qed.

Lemma prev_bounds (pattern : jsstring) (k : Z) (v : Z) :
  at_index (prev pattern) k = Some v -> 0 <= v <= Z.of_nat (length pattern).
Proof.
  unfold at_index. destruct (k <? 0); [discriminate|]. intros Hv.
  pose proof (lookup_lt_Some _ _ _ Hv) as Hlt. rewrite prev_length in Hlt.
  unfold prev in Hv.
  destruct (prevFrom_lookup _ _ _ _ _ Hv) as [[_ ->]|(j & c & Hj & _ & _ & _ & ->)]; lia.
Qed.

Lemma first_bounds (pattern : jsstring) :
  In "."%char pattern -> 0 <= first pattern < Z.of_nat (length pattern).
Proof.
  intros Hin. unfold first, findIndex. split.
  - apply (findIndexFrom_In _ _ "."%char); [lia | assumption | reflexivity].
  - assert (0 <= findIndexFrom slots_has 0 pattern)
      by (apply (findIndexFrom_In _ _ "."%char); [lia | assumption | reflexivity]).
    destruct (findIndexFrom_upper slots_has pattern 0) as [Hu|Hu]; lia.
Qed.

Lemma caret_defined (pattern : jsstring) (backRef : bool) (value : jsstring)
    (selection : nat) :
  In "."%char pattern ->
  exists o, caret pattern backRef value selection = Some o
            /\ 0 <= o <= Z.of_nat (length pattern).
Proof.
  intros Hin. unfold caret.
  set (out := clean pattern (take selection value)).
  assert (Hout : length out = length pattern) by apply clean_length.
  assert (Hne : (0 < length pattern)%nat) by (destruct pattern; [destruct Hin | simpl; lia]).
  pose proof (first_bounds _ Hin) as Hfirst.
  destruct (findIndex slots_has out <? 0) eqn:Hneg.
  - destruct (at_index (prev pattern) (Z.of_nat (length (prev pattern)) - 1)) as [v|] eqn:Hv.
    + exists v. split; [reflexivity|]. now apply prev_bounds in Hv.
    + exfalso. unfold at_index in Hv. rewrite prev_length in Hv.
      destruct (Z.of_nat (length pattern) - 1 <? 0) eqn:E; [lia|].
      apply lookup_ge_None in Hv. rewrite prev_length in Hv. lia.
  - apply Z.ltb_ge in Hneg. destruct backRef.
    + destruct (at_index (prev pattern) (findIndex slots_has out - 1)) as [v|] eqn:Hv.
      * apply prev_bounds in Hv. destruct (v =? 0); eexists; split; try reflexivity; lia.
      * eexists; split; [reflexivity | lia].
    + eexists; split; [reflexivity|]. split; [assumption|].
      unfold findIndex in *.
      destruct (findIndexFrom_upper slots_has out 0) as [H|H]; lia.
Qed.

End CursorTracker.

(** C8, as the code has it.  For every template with a slot marker, every
    new input value, every selection and either edit direction, the two
    output offsets are defined and lie within [0, length(template)], the
    length of the formatted sequence before it is trimmed. *)
Theorem format_selection_in_template (pattern : jsstring) (backRef : bool)
    (target : PhoneInput.Target) :
  In "."%char pattern ->
  exists i j : Z,
    PhoneInput.newSelection (PhoneInput.format pattern backRef target) = (Some i, Some j)
    /\ (0 <= i <= Z.of_nat (length pattern))%Z
    /\ (0 <= j <= Z.of_nat (length pattern))%Z
    /\ length (clean pattern (PhoneInput.value target)) = length pattern.
Proof.
  intros Hin. unfold PhoneInput.format. simpl.
  destruct (caret_defined pattern backRef (PhoneInput.value target)
              (PhoneInput.selectionStart target) Hin) as (i & -> & Hi).
  destruct (caret_defined pattern backRef (PhoneInput.value target)
              (PhoneInput.selectionEnd target) Hin) as (j & -> & Hj).
  exists i, j. repeat split; try lia. apply clean_length.
Qed.

Lemma format_selection_in_template_witness :
  exists i j : Z,
    PhoneInput.newSelection
      (PhoneInput.format (js "+1 (...) ...-....") true
         {| PhoneInput.value := js "+1 (202) 55-1234";
            PhoneInput.selectionStart := 11; PhoneInput.selectionEnd := 11 |})
    = (Some i, Some j)
    /\ (0 <= i <= 17)%Z /\ (0 <= j <= 17)%Z.
Proof.
  destruct (format_selection_in_template (js "+1 (...) ...-....") true
              {| PhoneInput.value := js "+1 (202) 55-1234";
                 PhoneInput.selectionStart := 11; PhoneInput.selectionEnd := 11 |})
    as (i & j & H & Hi & Hj & _).
  - vm_compute. tauto.
  - exists i, j. split; [exact H|]. split; [exact Hi | exact Hj].
Defined.

(** C8, as stated, fails: after the third digit of the area code is typed
    the display is [+1 (202)], of length 8, and both offsets are 9. *)
Lemma format_selection_past_display :
  let formatted :=
    PhoneInput.format (js "+1 (...) ...-....") false
      {| PhoneInput.value := js "+1 (202)";
         PhoneInput.selectionStart := 7; PhoneInput.selectionEnd := 7 |} in
  PhoneInput.newValue formatted = js "+1 (202)"
  /\ PhoneInput.newSelection formatted = (Some 9%Z, Some 9%Z)
  /\ ~ (9 <= Z.of_nat (length (PhoneInput.newValue formatted)))%Z.
Proof. repeat split. vm_compute. congruence. Qed.

Section Backspace.

Import PhoneInput.
Local Open Scope Z_scope.

Variables (pattern value : jsstring) (selection : nat).

Let t := replaceDigits pattern.
Let i := findIndex slots_has (clean pattern (take selection value)).

Lemma caret_no_unfilled_slot (backRef : bool) :
  i < 0 ->
  caret pattern backRef value selection
  = at_index (prev pattern) (Z.of_nat (length (prev pattern)) - 1).
Proof.
  intros Hi. unfold caret. fold i.
  destruct (Z.ltb_spec i 0); [reflexivity | lia].
Qed.

Lemma caret_backspace_unfold :
  0 <= i ->
  caret pattern true value selection
  = match at_index (prev pattern) (i - 1) with
    | Some p => if p =? 0 then Some (first pattern) else Some p
    | None => Some (first pattern)
    end.
Proof.
  intros Hi. unfold caret. fold i.
  destruct (Z.ltb_spec i 0); [lia | reflexivity].
Qed.

Lemma unfilled_slot_in_template : 0 <= i -> i < Z.of_nat (length pattern).
Proof.
  intros Hi. unfold i, findIndex in *.
  destruct (findIndexFrom_upper slots_has (clean pattern (take selection value)) 0)
    as [H|H]; [lia|].
  rewrite clean_length in H. lia.
Qed.

Lemma prev_before_unfilled_slot :
  1 <= i -> exists v, at_index (prev pattern) (i - 1) = Some v
                      /\ prevFrom 0 0 t !! Z.to_nat (i - 1) = Some v.
Proof.
  intros Hi. pose proof (unfilled_slot_in_template ltac:(lia)) as Hlt.
  unfold at_index. destruct (Z.ltb_spec (i - 1) 0); [lia|].
  destruct (lookup_lt_is_Some_2 (prev pattern) (Z.to_nat (i - 1))) as [v Hv].
  { rewrite prev_length. lia. }
  exists v. split; exact Hv.
Qed.

Lemma caret_backspace_nearest_slot (k : nat) (c : ascii) :
  0 <= i -> Z.of_nat k < i ->
  t !! k = Some c -> slots_has c = true ->
  (forall (m : nat) c', (k < m)%nat -> Z.of_nat m < i -> t !! m = Some c' ->
     slots_has c' = false) ->
  caret pattern true value selection = Some (Z.of_nat k + 1).
Proof.
  intros Hi Hk Hc Hs Hafter. rewrite (caret_backspace_unfold Hi).
  destruct (prev_before_unfilled_slot ltac:(lia)) as (v & -> & Hv).
  destruct (prevFrom_lookup _ _ _ _ _ Hv)
    as [[Hnone _]|(k' & c' & Hk' & Hc' & Hs' & Hafter' & ->)].
  - rewrite (Hnone k c) in Hs; [discriminate | lia | assumption].
  - assert (k' = k) as ->.
    { destruct (Nat.lt_trichotomy k' k) as [Hlt|[Heq|Hgt]]; [|assumption|].
      - rewrite (Hafter' k c) in Hs; [discriminate | lia | assumption].
      - rewrite (Hafter k' c') in Hs'; [discriminate | lia | lia | assumption]. }
    destruct (Z.eqb_spec (0 + Z.of_nat k + 1) 0); [lia | reflexivity].
Qed.

Lemma caret_backspace_no_slot_before :
  0 <= i ->
  (forall (m : nat) c', Z.of_nat m < i -> t !! m = Some c' -> slots_has c' = false) ->
  caret pattern true value selection = Some (first pattern).
Proof.
  intros Hi Hnone. rewrite (caret_backspace_unfold Hi).
  destruct (Z.eq_dec i 0) as [H0|H0].
  - rewrite H0. reflexivity.
  - destruct (prev_before_unfilled_slot ltac:(lia)) as (v & -> & Hv).
    destruct (prevFrom_lookup _ _ _ _ _ Hv)
      as [[_ ->]|(k' & c' & Hk' & Hc' & Hs' & _ & _)]; [reflexivity|].
    rewrite (Hnone k' c') in Hs'; [discriminate | lia | assumption].
Qed.

End Backspace.

(** C9, as the code has it.  Let [i] be the offset of the first unfilled
    slot of the formatted prefix.  With the backspace flag set, the output
    is the offset just after the nearest slot to the left of [i]; it is
    [i] itself when the position left of [i] is a slot, and [first], the
    offset of the first slot marker of the template as given, when no slot
    is left of [i].  When there is no unfilled slot the flag changes
    nothing: with or without it the output is the last entry of the [prev]
    table. *)
Theorem backspace_after_previous_slot (pattern value : jsstring) (selection : nat) :
  let t := replaceDigits pattern in
  let i := findIndex slots_has (clean pattern (take selection value)) in
  ((i < 0)%Z ->
     PhoneInput.caret pattern true value selection
     = PhoneInput.caret pattern false value selection
     /\ forall backRef,
          PhoneInput.caret pattern backRef value selection
          = at_index (PhoneInput.prev pattern)
              (Z.of_nat (length (PhoneInput.prev pattern)) - 1)%Z)
  /\ ((0 <= i)%Z ->
      (forall (k : nat) c,
         (Z.of_nat k < i)%Z -> t !! k = Some c -> slots_has c = true ->
         (forall (m : nat) c', (k < m)%nat -> (Z.of_nat m < i)%Z ->
            t !! m = Some c' -> slots_has c' = false) ->
         PhoneInput.caret pattern true value selection = Some (Z.of_nat k + 1)%Z)
      /\ (forall c,
            (1 <= i)%Z -> t !! Z.to_nat (i - 1) = Some c -> slots_has c = true ->
            PhoneInput.caret pattern true value selection = Some i)
      /\ ((forall (m : nat) c', (Z.of_nat m < i)%Z -> t !! m = Some c' ->
             slots_has c' = false) ->
          PhoneInput.caret pattern true value selection
          = Some (PhoneInput.first pattern))).
Proof.
  intros t i. split; [|intros Hi; split; [|split]].
  - intros Hneg. split.
    + now rewrite !caret_no_unfilled_slot.
    + intros backRef. now apply caret_no_unfilled_slot.
  - intros k c. now apply caret_backspace_nearest_slot.
  - intros c H1 Hc Hs.
    transitivity (Some (Z.of_nat (Z.to_nat (i - 1)) + 1)%Z); [|f_equal; lia].
    apply (caret_backspace_nearest_slot _ _ _ _ c); try assumption; lia.
  - now apply caret_backspace_no_slot_before.
Qed.

Lemma backspace_after_previous_slot_witness :
  PhoneInput.caret (js "+1 (...) ...-....") true (js "+1 (202) ") 9 = Some 7%Z.
Proof.
  refine (proj1 (proj2 (backspace_after_previous_slot (js "+1 (...) ...-....") (js "+1 (202) ") 9)
                   _) 6%nat "."%char _ _ _ _).
  - vm_compute. discriminate.
  - vm_compute. reflexivity.
  - reflexivity.
  - reflexivity.
  - intros m c' Hm Hm'. change (Z.of_nat m < 9)%Z in Hm'.
    assert (m = 7%nat \/ m = 8%nat) as [->| ->] by lia; intros [= <-]; reflexivity.
Defined.

(** C9, as stated, fails: when the character left of the first unfilled
    slot is itself a slot, the offset with the backspace flag is the
    offset without it. *)
Lemma backspace_may_rest_on_slot :
  findIndex slots_has (clean (js "+1 (...) ...-....") (take 5 (js "+1 (2)"))) = 5%Z
  /\ PhoneInput.caret (js "+1 (...) ...-....") false (js "+1 (2)") 5 = Some 5%Z
  /\ PhoneInput.caret (js "+1 (...) ...-....") true (js "+1 (2)") 5 = Some 5%Z.
Proof. repeat split. Qed.

(** ** Decimal digits of a number *)

Section Decimal.

Let step (acc : N) (c : ascii) : N := (10 * acc + digitValue c)%N.

Let chars (d : Decimal.uint) : jsstring :=
  list_ascii_of_string (NilEmpty.string_of_uint d).

Lemma chars_digits (d : Decimal.uint) : Forall (fun c => isDigit c = true) (chars d).
Proof. induction d; simpl; constructor; auto. Qed.

Lemma fold_chars_acc (d : Decimal.uint) : forall acc : positive,
  fold_left step (chars d) (N.pos acc) = N.pos (Pos.of_uint_acc d acc).
Proof.
  induction d; intros acc; simpl; [reflexivity|..];
    rewrite <- IHd; f_equal; unfold step, digitValue; simpl; lia.
Qed.

Lemma fold_chars (d : Decimal.uint) : fold_left step (chars d) 0%N = N.of_uint d.
Proof.
  induction d; simpl; [reflexivity | exact IHd |..];
    unfold N.of_uint; simpl; rewrite <- fold_chars_acc; reflexivity.
Qed.

Lemma numberToString_digits (n : N) :
  Forall (fun c => isDigit c = true) (numberToString n).
Proof. apply chars_digits. Qed.

Lemma digitsValue_numberToString (n : N) : digitsValue (numberToString n) = n.
Proof.
  unfold digitsValue, numberToString. fold (chars (N.to_uint n)).
  change (fold_left step (chars (N.to_uint n)) 0%N = n).
  rewrite fold_chars. apply DecimalN.Unsigned.of_to.
Qed.

Lemma numberToString_nonempty (n : N) : n <> 0%N -> numberToString n <> [].
Proof.
  intros Hn He. apply Hn. rewrite <- (digitsValue_numberToString n), He.
  reflexivity.
Qed.

Lemma digit_chars (ds : jsstring) :
  Forall (fun c => isDigit c = true) ds -> exists d, chars d = ds.
Proof.
  induction 1 as [|c ds Hc _ [d Hd]]; [now exists Nil|]. subst ds.
  destruct c as [[|] [|] [|] [|] [|] [|] [|] [|]]; try discriminate Hc;
    first [ now exists (D0 d) | now exists (D1 d) | now exists (D2 d)
          | now exists (D3 d) | now exists (D4 d) | now exists (D5 d)
          | now exists (D6 d) | now exists (D7 d) | now exists (D8 d)
          | now exists (D9 d) ].
Qed.

(** A run of digits that does not start with a zero is the decimal text
    of its value. *)
Lemma numberToString_digitsValue (ds : jsstring) :
  Forall (fun c => isDigit c = true) ds -> ds <> [] -> head ds <> Some "0"%char ->
  numberToString (digitsValue ds) = ds.
Proof.
  intros Hds Hne Hzero. destruct (digit_chars ds Hds) as [d <-].
  unfold digitsValue, numberToString.
  change (chars (N.to_uint (fold_left step (chars d) 0%N)) = chars d).
  rewrite fold_chars, DecimalN.Unsigned.to_of.
  unfold chars in *. destruct d; simpl in *; congruence.
Qed.

End Decimal.

(** ** Round trip through the formatter and the parser *)

Section RoundTrip.

Implicit Types (s p q ds l : jsstring) (c : ascii).

Local Abbreviation digits := (Forall (fun c => isDigit c = true)).
Local Abbreviation nonDigits := (Forall (fun c => isDigit c = false)).

(** *** Filling a template *)

Lemma fill_literals l : forall q p,
  digits q -> nonDigits l -> "."%char ∉ l ->
  fill q (l ++ p) = l ++ fill q p.
Proof.
  induction l as [|c l IH]; intros q p Hq Hl Hdot; [reflexivity|].
  inversion Hl as [|? ? Hc Hl']; subst. simpl.
  rewrite (head_is_digits _ _ Hq Hc).
  assert (Hs : slots_has c = false).
  { apply slots_has_false. intros ->. apply Hdot. apply list_elem_of_here. }
  rewrite Hs. simpl. f_equal. apply IH; try assumption.
  intros Hin. apply Hdot. now apply list_elem_of_further.
Qed.

Lemma not_slot_single c : c <> "."%char -> "."%char ∉ [c].
Proof. intros Hc Hin. apply list_elem_of_singleton in Hin. congruence. Qed.

Lemma fill_dots ds : forall q p,
  fill (ds ++ q) (dots (length ds) ++ p) = ds ++ fill q p.
Proof.
  induction ds as [|d ds IH]; intros q p; [reflexivity|].
  simpl. rewrite orb_true_r. f_equal. apply IH.
Qed.

Lemma fill_elem p : forall q c, c ∈ fill q p -> c ∈ q \/ c ∈ p.
Proof.
  induction p as [|a p IH]; intros q c Hc; simpl in Hc; [now right|].
  destruct (head_is q a || slots_has a); [destruct q as [|d q]|];
    apply elem_of_cons in Hc as [->|Hc];
    try (right; apply list_elem_of_here);
    try (left; apply list_elem_of_here);
    apply IH in Hc as [Hc|Hc];
    try (left; assumption);
    try (left; now apply list_elem_of_further);
    right; now apply list_elem_of_further.
Qed.

(** Digits that fit in the slots of a template without digits are all
    there, in order, after the fill. *)
Lemma fill_fits p : forall q,
  digits q -> nonDigits p -> (length q <= slotCount p)%nat ->
  matchDigits (fill q p) = q.
Proof.
  induction p as [|c p IH]; intros q Hq Hp Hlen.
  - destruct q; [reflexivity | unfold slotCount in Hlen; simpl in Hlen; lia].
  - inversion Hp as [|? ? Hc Hp']; subst. simpl.
    rewrite (head_is_digits _ _ Hq Hc). simpl.
    unfold slotCount in Hlen. simpl in Hlen.
    destruct (slots_has c) eqn:Hs.
    + destruct q as [|d q].
      * simpl. rewrite Hc, fill_nil. now apply matchDigits_none.
      * inversion Hq as [|? ? Hd Hq']; subst. simpl. rewrite Hd. f_equal.
        apply IH; try assumption. unfold slotCount. simpl in Hlen. lia.
    + simpl. rewrite Hc. now apply IH.
Qed.

(** *** Trimming the display *)

Lemma dropNonDigits_app s1 s2 :
  (exists d, d ∈ s1 /\ isDigit d = true) ->
  dropNonDigits (s1 ++ s2) = dropNonDigits s1 ++ s2.
Proof.
  induction s1 as [|c s1 IH]; intros (d & Hin & Hd).
  - now apply elem_of_nil in Hin.
  - simpl. destruct (isDigit c) eqn:Hc; [reflexivity|].
    apply IH. apply elem_of_cons in Hin as [->|Hin]; [congruence | eauto].
Qed.

Lemma dropNonDigits_elem s c : c ∈ dropNonDigits s -> c ∈ s.
Proof.
  induction s as [|a s IH]; simpl; [trivial|].
  destruct (isDigit a); [trivial|]. intros H. apply list_elem_of_further; auto.
Qed.

Lemma matchDigits_dropNonDigits s : matchDigits (dropNonDigits s) = matchDigits s.
Proof.
  induction s as [|a s IH]; simpl; [reflexivity|].
  destruct (isDigit a) eqn:Ha; [simpl; now rewrite Ha | assumption].
Qed.

Lemma matchDigits_rev s : matchDigits (rev s) = rev (matchDigits s).
Proof.
  unfold matchDigits. induction s as [|a s IH]; simpl; [reflexivity|].
  rewrite List.filter_app, IH. simpl. destruct (isDigit a); simpl;
    [reflexivity | now rewrite app_nil_r].
Qed.

Lemma closeGroup_tail s : exists tail, closeGroup s = s ++ tail
                                       /\ (tail = [] \/ tail = [")"%char]).
Proof.
  unfold closeGroup. destruct (endsWithOpenGroup s).
  - exists [")"%char]. auto.
  - exists []. rewrite app_nil_r. auto.
Qed.

Lemma matchDigits_displayFormat s : matchDigits (displayFormat s) = matchDigits s.
Proof.
  unfold displayFormat. destruct (closeGroup_tail (trimTrailing s)) as (tail & -> & Ht).
  rewrite matchDigits_app. unfold trimTrailing.
  rewrite matchDigits_rev, matchDigits_dropNonDigits, matchDigits_rev, rev_involutive.
  destruct Ht as [-> | ->]; simpl; now rewrite app_nil_r.
Qed.

(** Trimming leaves alone what comes before a digit. *)
Lemma displayFormat_prefix s1 s2 :
  (exists d, d ∈ s2 /\ isDigit d = true) ->
  exists s2', displayFormat (s1 ++ s2) = s1 ++ s2'
              /\ forall c, c ∈ s2' -> c ∈ s2 \/ c = ")"%char.
Proof.
  intros (d & Hin & Hd). unfold displayFormat.
  destruct (closeGroup_tail (trimTrailing (s1 ++ s2))) as (tail & -> & Ht).
  unfold trimTrailing. rewrite rev_app_distr, dropNonDigits_app.
  - rewrite rev_app_distr, rev_involutive, <- app_assoc.
    eexists. split; [reflexivity|].
    intros c Hc. apply elem_of_app in Hc as [Hc|Hc].
    + left. apply list_elem_of_In, List.in_rev, list_elem_of_In.
      apply dropNonDigits_elem. now apply list_elem_of_In, List.in_rev, list_elem_of_In.
    + right. destruct Ht as [-> | ->]; [now apply elem_of_nil in Hc|].
      now apply list_elem_of_singleton in Hc.
  - exists d. split; [|assumption]. apply list_elem_of_In, List.in_rev.
    rewrite rev_involutive. now apply list_elem_of_In.
Qed.

End RoundTrip.

Section ParserOnDisplay.

Implicit Types (s p ds l : jsstring) (c : ascii).

Lemma takeDigits_app ds s :
  Forall (fun c => isDigit c = true) ds -> startsNonDigit s ->
  takeDigits (ds ++ s) = ds /\ dropDigits (ds ++ s) = s.
Proof.
  intros Hds Hs. induction Hds as [|d ds Hd _ IH]; simpl.
  - destruct s as [|c s]; [auto|]. simpl in *. now rewrite Hs.
  - rewrite Hd. destruct IH as [-> ->]. auto.
Qed.

Lemma takeDigits_all ds :
  Forall (fun c => isDigit c = true) ds -> takeDigits ds = ds.
Proof.
  intros Hds. rewrite <- (app_nil_r ds) at 1.
  now apply takeDigits_app.
Qed.

Lemma countryCodeMatch_plus ds s :
  Forall (fun c => isDigit c = true) ds -> ds <> [] -> startsNonDigit s ->
  countryCodeMatch ("+"%char :: ds ++ s) = Some ("+"%char :: ds).
Proof.
  intros Hds Hne Hs. simpl.
  destruct (takeDigits_app ds s Hds Hs) as [-> _]. now destruct ds.
Qed.

Lemma parseInt_plus ds :
  Forall (fun c => isDigit c = true) ds -> ds <> [] ->
  parseInt ("+"%char :: ds) = Some (digitsValue ds).
Proof.
  intros Hds Hne. unfold parseInt. simpl.
  rewrite (takeDigits_all _ Hds). now destruct ds.
Qed.

Lemma parseInt_digits ds :
  Forall (fun c => isDigit c = true) ds -> ds <> [] ->
  parseInt ds = Some (digitsValue ds).
Proof.
  intros Hds Hne. unfold parseInt. destruct ds as [|d ds]; [congruence|].
  inversion Hds as [|? ? Hd _]; subst.
  destruct (Ascii.eqb_spec d "+"%char) as [->|_]; [discriminate|].
  now rewrite (takeDigits_all _ Hds).
Qed.

Lemma areaCodeMatch_skip l s :
  "("%char ∉ l -> areaCodeMatch (l ++ s) = areaCodeMatch s.
Proof.
  induction l as [|c l IH]; intros Hl; [reflexivity|]. simpl.
  destruct (Ascii.eqb_spec c "("%char) as [->|_].
  - exfalso. apply Hl. apply list_elem_of_here.
  - apply IH. intros Hin. apply Hl. now apply list_elem_of_further.
Qed.

Lemma areaCodeMatch_skip_nonDigits l s :
  Forall (fun c => isDigit c = false) l -> startsNonDigit s ->
  areaCodeMatch (l ++ s) = areaCodeMatch s.
Proof.
  intros Hl Hs. induction Hl as [|c l Hc Hl IH]; [reflexivity|]. simpl.
  destruct (Ascii.eqb c "("%char); [|exact IH].
  assert (Hnext : takeDigits (l ++ s) = []).
  { destruct l as [|c' l]; simpl.
    - destruct s as [|c' s]; [reflexivity|]. simpl in *. now rewrite Hs.
    - inversion Hl as [|? ? Hc' _]; subst. now rewrite Hc'. }
  rewrite Hnext. exact IH.
Qed.

Lemma areaCodeMatch_group ds s :
  Forall (fun c => isDigit c = true) ds -> ds <> [] ->
  areaCodeMatch ("("%char :: ds ++ ")"%char :: s) = Some ds.
Proof.
  intros Hds Hne. simpl.
  destruct (takeDigits_app ds (")"%char :: s) Hds eq_refl) as [-> ->].
  now destruct ds.
Qed.

Lemma stripPrefix_app p s : stripPrefix p (p ++ s) = Some s.
Proof.
  induction p as [|c p IH]; simpl; [now destruct s|].
  now rewrite Ascii.eqb_refl.
Qed.

Lemma phoneNumberMatch_app p s :
  Forall (fun c => isDigit c = true) s -> s <> [] ->
  phoneNumberMatch p (p ++ s) = Some s.
Proof.
  intros Hs Hne. unfold phoneNumberMatch.
  rewrite stripPrefix_app, (takeDigits_all _ Hs). now destruct s.
Qed.

Lemma takeDigits_digits s : Forall (fun c => isDigit c = true) (takeDigits s).
Proof.
  induction s as [|c s IH]; simpl; [constructor|].
  destruct (isDigit c) eqn:Hc; constructor; assumption.
Qed.

Lemma countryCodeMatch_Some s m :
  countryCodeMatch s = Some m ->
  exists ds, m = "+"%char :: ds /\ Forall (fun c => isDigit c = true) ds /\ ds <> [].
Proof.
  induction s as [|c s IH]; simpl; [discriminate|].
  destruct (Ascii.eqb c "+"%char); [|exact IH].
  pose proof (takeDigits_digits s) as Hds.
  destruct (takeDigits s) as [|d ds]; [exact IH|].
  intros [= <-]. exists (d :: ds). repeat split; [assumption | discriminate].
Qed.

Lemma areaCodeMatch_Some s ds :
  areaCodeMatch s = Some ds -> Forall (fun c => isDigit c = true) ds /\ ds <> [].
Proof.
  induction s as [|c s IH]; simpl; [discriminate|].
  destruct (Ascii.eqb c "("%char); [|exact IH].
  pose proof (takeDigits_digits s) as Hds.
  destruct (takeDigits s) as [|d ds']; [exact IH|].
  destruct (dropDigits s) as [|c' s']; [exact IH|].
  destruct (Ascii.eqb c' ")"%char); [|exact IH].
  intros [= <-]. split; [assumption | discriminate].
Qed.

(** Where the code agrees with C4: when the country-code run and the
    area-code run do not start with a zero, the subscriber number is the
    capture of the pattern made of these runs. *)
Lemma parsePhoneNumber_subscriber_by_spec (formattedNumber countryDigits : jsstring)
    (countriesList : list CountryRecord) (country : option string) :
  countryCodeMatch formattedNumber = Some ("+"%char :: countryDigits) ->
  head countryDigits <> Some "0"%char ->
  (forall areaDigits, areaCodeMatch formattedNumber = Some areaDigits ->
     head areaDigits <> Some "0"%char) ->
  phoneNumber (parsePhoneNumber formattedNumber countriesList country)
  = subscriberBySpec countryDigits (areaCodeMatch formattedNumber)
      (getRawValue (inr formattedNumber)).
Proof.
  intros Hcc Hzero Harea. unfold parsePhoneNumber, subscriberBySpec. simpl.
  destruct (countryCodeMatch_Some _ _ Hcc) as (ds & [= <-] & Hds & Hne).
  rewrite Hcc. simpl. rewrite (parseInt_plus _ Hds Hne). simpl.
  rewrite (numberToString_digitsValue _ Hds Hne Hzero).
  destruct (areaCodeMatch formattedNumber) as [areaDigits|] eqn:Hac; simpl;
    [|reflexivity].
  destruct (areaCodeMatch_Some _ _ Hac) as [Hads Hane].
  rewrite (parseInt_digits _ Hads Hane). simpl.
  pose proof (numberToString_digitsValue _ Hads Hane (Harea _ eq_refl)) as Hback.
  destruct (N.eqb_spec (digitsValue areaDigits) 0) as [H0|_].
  - rewrite H0 in Hback. subst areaDigits. now destruct (Harea _ eq_refl).
  - now rewrite Hback.
Qed.

End ParserOnDisplay.

Section CompleteNumber.

Variables (pattern sep rest sub : jsstring) (cc : N) (ac : option N)
  (iso : option string).

Hypothesis template : replaceDigits pattern = templateFor cc ac sep rest.
Hypothesis separators : "."%char ∉ sep.
Hypothesis country_code : cc <> 0%N.
Hypothesis area_code : ac <> Some 0%N.
Hypothesis subscriber : sub <> [].
Hypothesis subscriber_digits : Forall (fun c => isDigit c = true) sub.
Hypothesis subscriber_fits : (length sub <= slotCount rest)%nat.
Hypothesis no_area : ac = None -> sep <> [] /\ "("%char ∉ sep ++ rest.

Let n : PhoneNumber :=
  {| countryCode := Some cc; areaCode := ac; phoneNumber := Some sub;
     isoCode := iso |}.

Let ccs : jsstring := numberToString cc.

Let acs : jsstring :=
  match ac with
  | Some a => numberToString a
  | None => []
  end.

(** The area code between its parentheses, when there is one. *)
Let group : jsstring :=
  match ac with
  | Some a => "("%char :: numberToString a ++ [")"%char]
  | None => []
  end.

Lemma template_nonDigits :
  Forall (fun c => isDigit c = false) sep /\ Forall (fun c => isDigit c = false) rest.
Proof.
  pose proof (noDigit_Forall _ (replaceDigits_noDigit pattern)) as H.
  rewrite template in H. unfold templateFor in H.
  apply Forall_cons in H as [_ H]. apply Forall_app in H as [_ H].
  apply Forall_app in H as [Hsep H]. split; [assumption|].
  destruct ac; [|assumption].
  apply Forall_cons in H as [_ H]. apply Forall_app in H as [_ H].
  now apply Forall_cons in H as [_ H].
Qed.

Lemma raw_digits : getRawValue (inl n) = ccs ++ acs ++ sub.
Proof.
  simpl. rewrite (truthyNumber_present ac area_code).
  destruct (N.eqb_spec cc 0); [contradiction | reflexivity].
Qed.

Lemma acs_digits : Forall (fun c => isDigit c = true) acs.
Proof. unfold acs. destruct ac; [apply numberToString_digits | constructor]. Qed.

Lemma clean_complete :
  clean pattern (getRawValue (inl n))
  = ("+"%char :: ccs ++ sep ++ group) ++ fill sub rest.
Proof.
  destruct template_nonDigits as [Hsep Hrest].
  pose proof (numberToString_digits cc) as Hcc. fold ccs in Hcc.
  pose proof acs_digits as Hac.
  assert (Hraw : Forall (fun c => isDigit c = true) (ccs ++ acs ++ sub)).
  { repeat (apply Forall_app; split); assumption. }
  unfold clean, cleanInput. rewrite raw_digits, template.
  rewrite (matchDigits_id _ Hraw). unfold templateFor. fold ccs.
  change ("+"%char :: dots (length ccs) ++ ?t) with (["+"%char] ++ dots (length ccs) ++ t).
  rewrite fill_literals; [|assumption | repeat constructor | now apply not_slot_single].
  rewrite fill_dots.
  apply Forall_app in Hraw as [_ Hraw].
  rewrite fill_literals; [|assumption..].
  simpl. f_equal. rewrite <- !app_assoc. f_equal. f_equal.
  unfold acs, group in *. destruct ac as [a|]; [|reflexivity].
  change ("("%char :: ?d ++ ")"%char :: rest) with (["("%char] ++ d ++ [")"%char] ++ rest).
  rewrite fill_literals; [|assumption | repeat constructor | now apply not_slot_single].
  rewrite fill_dots.
  apply Forall_app in Hraw as [_ Hraw].
  rewrite fill_literals; [|assumption | repeat constructor | now apply not_slot_single].
  simpl. now rewrite <- app_assoc.
Qed.

Lemma fill_has_digit : exists d, d ∈ fill sub rest /\ isDigit d = true.
Proof.
  destruct template_nonDigits as [_ Hrest].
  pose proof (fill_fits rest sub subscriber_digits Hrest subscriber_fits) as Hfit.
  destruct sub as [|d sub'] eqn:E; [congruence|]. exists d.
  inversion subscriber_digits as [|? ? Hd _]; subst. split; [|assumption].
  apply list_elem_of_In.
  apply (proj1 (List.filter_In isDigit d (fill (d :: sub') rest))).
  fold (matchDigits (fill (d :: sub') rest)). rewrite Hfit. now left.
Qed.

(** The display of a complete number: the country code after its [+], the
    separators, the area code between its parentheses, then a part that
    holds exactly the digits of the subscriber number. *)
Lemma formatNumber_complete :
  exists tail,
    formatNumber pattern n = ("+"%char :: ccs ++ sep ++ group) ++ tail
    /\ matchDigits tail = sub
    /\ forall c, c ∈ tail -> c ∈ sub \/ c ∈ rest \/ c = ")"%char.
Proof.
  destruct template_nonDigits as [_ Hrest].
  unfold formatNumber. rewrite clean_complete.
  destruct (displayFormat_prefix ("+"%char :: ccs ++ sep ++ group) (fill sub rest)
              fill_has_digit) as (tail & Htail & Helem).
  exists tail. split; [assumption|]. split.
  - pose proof (matchDigits_displayFormat
                  (("+"%char :: ccs ++ sep ++ group) ++ fill sub rest)) as H.
    rewrite Htail, !matchDigits_app in H.
    apply app_inv_head in H. rewrite H.
    now apply fill_fits.
  - intros c Hc. destruct (Helem c Hc) as [H|H]; [|auto].
    apply fill_elem in H. tauto.
Qed.

Lemma prefix_digits : matchDigits ("+"%char :: ccs ++ sep ++ group) = ccs ++ acs.
Proof.
  destruct template_nonDigits as [Hsep _].
  change ("+"%char :: ccs ++ sep ++ group) with (["+"%char] ++ ccs ++ sep ++ group).
  rewrite !matchDigits_app. simpl.
  rewrite (matchDigits_id ccs) by apply numberToString_digits.
  rewrite (matchDigits_none sep Hsep). simpl. f_equal.
  unfold group, acs. destruct ac as [a|]; [|reflexivity].
  change ("("%char :: numberToString a ++ [")"%char])
    with (["("%char] ++ numberToString a ++ [")"%char]).
  rewrite !matchDigits_app. simpl.
  rewrite (matchDigits_id _ (numberToString_digits a)). apply app_nil_r.
Qed.

Lemma after_country_code tail : startsNonDigit (sep ++ group ++ tail).
Proof.
  destruct template_nonDigits as [Hsep _].
  destruct sep as [|c sep'] eqn:E.
  - unfold group. destruct ac as [a|]; [reflexivity|].
    destruct (no_area eq_refl) as [H _]. congruence.
  - now inversion Hsep.
Qed.

Lemma digit_not_paren c : isDigit c = true -> c <> "("%char.
Proof. intros H ->. discriminate. Qed.

Lemma areaCodeMatch_complete tail :
  (forall c, c ∈ tail -> c ∈ sub \/ c ∈ rest \/ c = ")"%char) ->
  areaCodeMatch (("+"%char :: ccs ++ sep ++ group) ++ tail) = numberToString <$> ac.
Proof.
  intros Htail. destruct template_nonDigits as [Hsep _].
  replace (("+"%char :: ccs ++ sep ++ group) ++ tail)
    with (("+"%char :: ccs) ++ sep ++ group ++ tail)
    by (simpl; now rewrite <- !app_assoc).
  rewrite areaCodeMatch_skip.
  2:{ intros Hin. apply elem_of_cons in Hin as [Hin|Hin]; [discriminate|].
      pose proof (numberToString_digits cc) as Hcc.
      rewrite Forall_forall in Hcc. now apply Hcc, digit_not_paren in Hin. }
  unfold group. destruct ac as [a|] eqn:Hac; simpl.
  - rewrite areaCodeMatch_skip_nonDigits; [|assumption | reflexivity].
    rewrite <- app_assoc. simpl. apply areaCodeMatch_group.
    + apply numberToString_digits.
    + apply numberToString_nonempty. congruence.
  - destruct (no_area eq_refl) as [_ Hparen].
    rewrite <- (app_nil_r (sep ++ tail)). rewrite areaCodeMatch_skip; [reflexivity|].
    intros Hin. apply elem_of_app in Hin as [Hin|Hin].
    + apply Hparen. apply elem_of_app. now left.
    + destruct (Htail _ Hin) as [H|[H|H]]; [| |discriminate].
      * rewrite Forall_forall in subscriber_digits.
        now apply subscriber_digits, digit_not_paren in H.
      * apply Hparen. apply elem_of_app. now right.
Qed.

Lemma parsePhoneNumber_complete (countriesList : list CountryRecord)
    (country : option string) :
  let parsed := parsePhoneNumber (formatNumber pattern n) countriesList country in
  phoneNumber parsed = Some sub
  /\ countryCode parsed = Some cc
  /\ areaCode parsed = ac.
Proof.
  destruct formatNumber_complete as (tail & Hf & Hdigits & Helem).
  pose proof (numberToString_digits cc) as Hcc.
  pose proof (numberToString_nonempty cc country_code) as Hcc'.
  assert (Hcountry : countryCodeMatch (formatNumber pattern n) ≫= parseInt = Some cc).
  { rewrite Hf.
    replace (("+"%char :: ccs ++ sep ++ group) ++ tail)
      with ("+"%char :: ccs ++ sep ++ group ++ tail)
      by (simpl; now rewrite <- !app_assoc).
    rewrite countryCodeMatch_plus; try assumption; [|apply after_country_code].
    simpl. rewrite parseInt_plus by assumption.
    unfold ccs. now rewrite digitsValue_numberToString. }
  assert (Harea : areaCodeMatch (formatNumber pattern n) ≫= parseInt = ac).
  { rewrite Hf, (areaCodeMatch_complete tail Helem).
    destruct ac as [a|]; [|reflexivity]. simpl.
    rewrite parseInt_digits.
    - now rewrite digitsValue_numberToString.
    - apply numberToString_digits.
    - apply numberToString_nonempty. congruence. }
  unfold parsePhoneNumber. simpl. rewrite Hcountry, Harea.
  split; [|split; reflexivity].
  rewrite Hf, matchDigits_app, prefix_digits, Hdigits. simpl.
  rewrite (truthyNumber_present ac area_code). fold acs.
  now apply phoneNumberMatch_app.
Qed.

End CompleteNumber.

(** C5, as the code has it.  The round trip holds for a number whose
    fields line up with the template: the country code and the area code
    are integers other than [0]; the template is a [+], as many slots as the
    country code has digits, separators [sep] without a slot, then, when
    the number has an area code, parentheses around as many slots as the
    area code has digits, and a part [rest] whose slots are enough for the
    subscriber number, a non-empty string of digits; without an area code a
    separator follows the country code and no opening parenthesis comes
    after it.  The display of such a number parses back to the same
    subscriber number, and to the same country and area codes. *)
Theorem parsePhoneNumber_round_trip (pattern sep rest sub : jsstring) (cc : N)
    (ac : option N) (iso : option string) (countriesList : list CountryRecord)
    (country : option string) :
  replaceDigits pattern = templateFor cc ac sep rest ->
  "."%char ∉ sep ->
  cc <> 0%N ->
  ac <> Some 0%N ->
  sub <> [] ->
  Forall (fun c => isDigit c = true) sub ->
  (length sub <= slotCount rest)%nat ->
  (ac = None -> sep <> [] /\ "("%char ∉ sep ++ rest) ->
  let n := {| countryCode := Some cc; areaCode := ac; phoneNumber := Some sub;
              isoCode := iso |} in
  let parsed := parsePhoneNumber (formatNumber pattern n) countriesList country in
  phoneNumber parsed = Some sub
  /\ countryCode parsed = Some cc
  /\ areaCode parsed = ac.
Proof.
  intros. now apply parsePhoneNumber_complete with (sep := sep) (rest := rest).
Qed.

Lemma parsePhoneNumber_round_trip_witness :
  formatNumber (js "+1 (...) ...-....")
    {| countryCode := Some 1%N; areaCode := Some 202%N;
       phoneNumber := Some (js "5551234"); isoCode := Some "us"%string |}
  = js "+1 (202) 555-1234"
  /\ phoneNumber
       (parsePhoneNumber
          (formatNumber (js "+1 (...) ...-....")
             {| countryCode := Some 1%N; areaCode := Some 202%N;
                phoneNumber := Some (js "5551234"); isoCode := Some "us"%string |})
          [] (Some "us"%string))
     = Some (js "5551234").
Proof.
  split; [reflexivity|].
  refine (proj1 (parsePhoneNumber_round_trip (js "+1 (...) ...-....") (js " ")
                   (js " ...-....") (js "5551234") 1 (Some 202%N) (Some "us"%string)
                   [] (Some "us"%string) _ _ _ _ _ _ _ _)).
  - reflexivity.
  - intros Hin. apply list_elem_of_singleton in Hin. discriminate.
  - discriminate.
  - discriminate.
  - discriminate.
  - repeat constructor.
  - vm_compute. lia.
  - discriminate.
Defined.

(** C5, as stated, fails for a complete number whose area code has no
    parentheses to go in: with the mask [+44 .... ......] the number 44, 20,
    [71234567] fills every slot, is displayed [+44 2071 234567], and is
    parsed without an area code and with the subscriber number
    [2071234567]. *)
Lemma parsePhoneNumber_round_trip_needs_group :
  let gb := {| isoOf := "gb"; nameOf := js "United Kingdom"; regionsOf := [];
               dialOf := js "44"; maskOf := js "+44 .... ......" |} in
  let n := {| countryCode := Some 44%N; areaCode := Some 20%N;
              phoneNumber := Some (js "71234567"); isoCode := Some "gb"%string |} in
  let parsed := parsePhoneNumber (formatNumber (maskOf gb) n) [gb] (Some "gb"%string) in
  formatNumber (maskOf gb) n = js "+44 2071 234567"
  /\ areaCode parsed = None
  /\ phoneNumber parsed = Some (js "2071234567")
  /\ phoneNumber parsed <> phoneNumber n.
Proof. repeat split. vm_compute. congruence. Qed.

(** ** Scenarios *)

(** Typing [12025551234] into the template [+1 (...) ...-....]. *)
Example us_number_display :
  displayFormat (clean (js "+1 (...) ...-....") (js "12025551234"))
  = js "+1 (202) 555-1234".
Proof. reflexivity. Qed.

Example us_number_parsed :
  parsePhoneNumber (js "+1 (202) 555-1234")
    [ {| isoOf := "us"; nameOf := js "United States"; regionsOf := [];
         dialOf := js "1"; maskOf := js "+1 (...) ...-...." |} ] None
  = {| countryCode := Some 1%N; areaCode := Some 202%N;
       phoneNumber := Some (js "5551234"); isoCode := Some "us"%string |}.
Proof. reflexivity. Qed.

(** A partly typed area code is closed by the display. *)
Example partial_area_code_display :
  displayFormat (clean (js "+1 (...) ...-....") (js "120")) = js "+1 (20)".
Proof. reflexivity. Qed.

(** * Further properties of the code *)

(** ** Display trimming *)

Section Display.

Implicit Types (s kept : jsstring).

Lemma dropNonDigits_idem s : dropNonDigits (dropNonDigits s) = dropNonDigits s.
Proof.
  induction s as [|c s IH]; simpl; [reflexivity|].
  destruct (isDigit c) eqn:Hc; [simpl; now rewrite Hc | exact IH].
Qed.

Lemma dropNonDigits_split s :
  exists dropped, s = dropped ++ dropNonDigits s
                  /\ Forall (fun c => isDigit c = false) dropped.
Proof.
  induction s as [|c s (dropped & Hs & Hd)]; simpl.
  - exists []. split; [reflexivity | constructor].
  - destruct (isDigit c) eqn:Hc.
    + exists []. split; [reflexivity | constructor].
    + exists (c :: dropped). split; [simpl; congruence | now constructor].
Qed.

Lemma dropNonDigits_head s :
  dropNonDigits s = [] \/ exists d rest, dropNonDigits s = d :: rest /\ isDigit d = true.
Proof.
  induction s as [|c s IH]; simpl; [now left|].
  destruct (isDigit c) eqn:Hc; [right; eauto | exact IH].
Qed.

Lemma trimTrailing_idem s : trimTrailing (trimTrailing s) = trimTrailing s.
Proof. unfold trimTrailing. now rewrite rev_involutive, dropNonDigits_idem. Qed.

Lemma trimTrailing_closed s : trimTrailing (s ++ [")"%char]) = trimTrailing s.
Proof. unfold trimTrailing. now rewrite rev_app_distr. Qed.

Lemma takeDigits_dropDigits s : s = takeDigits s ++ dropDigits s.
Proof.
  induction s as [|c s IH]; simpl; [reflexivity|].
  destruct (isDigit c); simpl; congruence.
Qed.

Lemma Forall_rev_digits (b : bool) s :
  Forall (fun c => isDigit c = b) s -> Forall (fun c => isDigit c = b) (rev s).
Proof.
  rewrite !List.Forall_forall. intros H c Hc. apply H. now apply List.in_rev.
Qed.

Lemma endsWithOpenGroup_spec kept :
  endsWithOpenGroup kept = true
  <-> exists before ds,
        kept = before ++ "("%char :: ds /\ ds <> []
        /\ Forall (fun c => isDigit c = true) ds.
Proof.
  unfold endsWithOpenGroup. split.
  - pose proof (takeDigits_dropDigits (rev kept)) as Hsplit.
    pose proof (takeDigits_digits (rev kept)) as Hds.
    destruct (takeDigits (rev kept)) as [|d ds]; [discriminate|].
    destruct (dropDigits (rev kept)) as [|c rest]; [discriminate|].
    intros Hc. apply Ascii.eqb_eq in Hc. subst c.
    exists (rev rest), (rev (d :: ds)). split; [|split].
    + rewrite <- (rev_involutive kept), Hsplit, rev_app_distr. simpl.
      now rewrite <- app_assoc.
    + intros He. apply (f_equal (@rev ascii)) in He.
      rewrite rev_involutive in He. discriminate.
    + now apply Forall_rev_digits.
  - intros (before & ds & -> & Hne & Hds).
    rewrite rev_app_distr. simpl. rewrite <- app_assoc. simpl.
    destruct (takeDigits_app (rev ds) ("("%char :: rev before)
                (Forall_rev_digits true ds Hds) eq_refl) as [-> ->].
    destruct (rev ds) eqn:E; [|reflexivity].
    apply (f_equal (@rev ascii)) in E. rewrite rev_involutive in E. contradiction.
Qed.

End Display.

(** X1. Trimming an already trimmed display changes nothing. *)
Theorem displayFormat_idempotent (value : jsstring) :
  displayFormat (displayFormat value) = displayFormat value.
Proof.
  unfold displayFormat at 2.
  destruct (closeGroup_tail (trimTrailing value)) as (tail & Htail & [-> | ->]).
  - rewrite app_nil_r in Htail. rewrite Htail. unfold displayFormat.
    now rewrite trimTrailing_idem.
  - rewrite Htail. unfold displayFormat.
    now rewrite trimTrailing_closed, trimTrailing_idem.
Qed.

(** X2. The display is the value without the run of non-digits that ends
    it; what is kept is empty or ends with a digit; a closing parenthesis
    is added exactly when what is kept ends with an opening parenthesis and
    digits.  No digit is added or lost. *)
Theorem displayFormat_shape (value : jsstring) :
  exists kept dropped,
    value = kept ++ dropped
    /\ Forall (fun c => isDigit c = false) dropped
    /\ (kept = [] \/ exists init d, kept = init ++ [d] /\ isDigit d = true)
    /\ (displayFormat value = kept \/ displayFormat value = kept ++ [")"%char])
    /\ (displayFormat value = kept ++ [")"%char]
        <-> exists before ds, kept = before ++ "("%char :: ds /\ ds <> []
                              /\ Forall (fun c => isDigit c = true) ds)
    /\ matchDigits (displayFormat value) = matchDigits value.
Proof.
  destruct (dropNonDigits_split (rev value)) as (dropped & Hs & Hd).
  exists (trimTrailing value), (rev dropped).
  split; [|split; [|split; [|split; [|split]]]].
  - unfold trimTrailing. rewrite <- rev_app_distr, <- Hs. now rewrite rev_involutive.
  - now apply Forall_rev_digits.
  - unfold trimTrailing.
    destruct (dropNonDigits_head (rev value)) as [-> | (d & rest & -> & Hdig)].
    + now left.
    + right. exists (rev rest), d. simpl. auto.
  - unfold displayFormat, closeGroup.
    destruct (endsWithOpenGroup (trimTrailing value)); auto.
  - rewrite <- endsWithOpenGroup_spec. unfold displayFormat, closeGroup.
    destruct (endsWithOpenGroup (trimTrailing value)); split; try reflexivity;
      try discriminate.
    intros H. apply (f_equal (@length ascii)) in H.
    rewrite length_app in H. simpl in H. lia.
  - apply matchDigits_displayFormat.
Qed.

(** ** Formatting typed input *)

Section TypedInput.

Implicit Types (q t x : jsstring).

(** The digits of a filled template without literal digits are the first
    digits of the queue, as many as the template has slots. *)
Lemma fill_takes t : forall q,
  Forall (fun d => isDigit d = true) q ->
  Forall (fun c => isDigit c = false) t ->
  matchDigits (fill q t) = take (slotCount t) q.
Proof.
  induction t as [|c t IH]; intros q Hq Ht; [reflexivity|].
  inversion Ht as [|? ? Hc Ht']; subst. simpl.
  rewrite (head_is_digits _ _ Hq Hc). simpl. unfold slotCount. simpl.
  destruct (slots_has c) eqn:Hs.
  - destruct q as [|d q].
    + simpl. rewrite Hc, fill_nil. now apply matchDigits_none.
    + inversion Hq as [|? ? Hd Hq']; subst. simpl. rewrite Hd. f_equal.
      now apply IH.
  - simpl. rewrite Hc. now apply IH.
Qed.

Lemma replaceDigits_nonDigits t :
  Forall (fun c => isDigit c = false) (replaceDigits t).
Proof. apply noDigit_Forall, replaceDigits_noDigit. Qed.

Lemma clean_digits pattern x :
  matchDigits (clean pattern x) = take (slotCount (replaceDigits pattern)) (matchDigits x).
Proof.
  unfold clean, cleanInput.
  apply fill_takes; [apply matchDigits_all | apply replaceDigits_nonDigits].
Qed.

(** A mask whose digits all come before its slots is its own fill. *)
Lemma fill_own_digits t :
  noDigitAfterSlot t = true -> fill (matchDigits t) t = t.
Proof.
  induction t as [|c t IH]; intros Ht; [reflexivity|]. simpl in Ht. simpl.
  destruct (slots_has c) eqn:Hs.
  - rewrite (slot_not_digit _ Hs), (matchDigits_none t (noDigit_Forall _ Ht)).
    simpl. now rewrite fill_nil.
  - rewrite orb_false_r. destruct (isDigit c) eqn:Hc.
    + simpl. rewrite Ascii.eqb_refl. f_equal. now apply IH.
    + rewrite (head_is_digits _ _ (matchDigits_all t) Hc). f_equal. now apply IH.
Qed.

End TypedInput.

(** X3. What [format] and [onChange] display holds the digits of the typed
    value in their order, cut to the number of slots of the template: no
    digit is reordered or invented, and none is dropped while a slot is
    free. *)
Theorem display_keeps_typed_digits (pattern value : jsstring) :
  getRawValue (inr (displayFormat (clean pattern value)))
  = take (slotCount (replaceDigits pattern)) (getRawValue (inr value)).
Proof. simpl. now rewrite matchDigits_displayFormat, clean_digits. Qed.

(** X4. The value [format] writes back is stable: formatting it again
    with the same template gives the same display. *)
Theorem display_is_stable (pattern value : jsstring) :
  displayFormat (clean pattern (displayFormat (clean pattern value)))
  = displayFormat (clean pattern value).
Proof.
  f_equal. unfold clean, cleanInput.
  rewrite matchDigits_displayFormat. apply fill_again.
  - apply matchDigits_all.
  - apply noDigit_noDigitAfterSlot, replaceDigits_noDigit.
Qed.

(** X5. Selecting a country whose mask has its digits before its slots
    sets the value to the trimmed mask, which shows exactly the digits of
    the mask, and sets the country code to the ISO code of the row when
    that code has two characters. *)
Theorem onSelect_shows_mask (c : CountryRecord) :
  noDigitAfterSlot (maskOf c) = true ->
  String.length (isoOf c) = 2%nat ->
  fst (Component.onSelect c) = displayFormat (maskOf c)
  /\ getRawValue (inr (fst (Component.onSelect c))) = matchDigits (maskOf c)
  /\ snd (Component.onSelect c) = isoOf c.
Proof.
  intros Hmask Hiso. unfold Component.onSelect, cleanInput. simpl.
  rewrite (fill_own_digits _ Hmask). split; [reflexivity|]. split.
  - apply matchDigits_displayFormat.
  - destruct (isoOf c) as [|a [|b [|? ?]]]; try discriminate. simpl.
    now destruct (string_of_list_ascii (dialOf c)).
Qed.

Lemma onSelect_shows_mask_witness :
  Component.onSelect
    {| isoOf := "as"; nameOf := js "American Samoa"; regionsOf := [];
       dialOf := js "1684"; maskOf := js "+1 (684) ...-...." |}
  = (js "+1 (684)", "as"%string).
Proof.
  pose proof (onSelect_shows_mask
    {| isoOf := "as"; nameOf := js "American Samoa"; regionsOf := [];
       dialOf := js "1684"; maskOf := js "+1 (684) ...-...." |}
    eq_refl eq_refl) as (H1 & _ & H3).
  apply injective_projections; [exact H1 | exact H3].
Defined.

(** ** Where the caret goes *)

Section NextSlot.

Import PhoneInput.
Local Open Scope Z_scope.

Implicit Types (q t : jsstring).

Lemma findIndex_fill t : forall q i0,
  Forall (fun d => isDigit d = true) q ->
  Forall (fun c => isDigit c = false) t ->
  findIndexFrom slots_has i0 (fill q t)
  = match nthSlot t (length q) with
    | Some i => i0 + Z.of_nat i
    | None => -1
    end.
Proof.
  induction t as [|c t IH]; intros q i0 Hq Ht; [reflexivity|].
  inversion Ht as [|? ? Hc Ht']; subst. simpl.
  rewrite (head_is_digits _ _ Hq Hc). simpl.
  destruct (slots_has c) eqn:Hs.
  - destruct q as [|d q]; simpl.
    + rewrite Hs. lia.
    + inversion Hq as [|? ? Hd Hq']; subst.
      rewrite (digit_not_slot _ Hd), (IH _ _ Hq' Ht').
      destruct (nthSlot t (length q)); simpl; lia.
  - simpl. rewrite Hs, (IH _ _ Hq Ht').
    destruct (nthSlot t (length q)); simpl; lia.
Qed.

Lemma nthSlot_Some t : forall (n i : nat),
  nthSlot t n = Some i ->
  t !! i = Some "."%char /\ slotCount (take i t) = n.
Proof.
  unfold slotCount.
  induction t as [|c t IH]; intros n i H; simpl in H; [discriminate|].
  destruct (slots_has c) eqn:Hs.
  - destruct n as [|n].
    + injection H as <-. split; [|reflexivity].
      apply slots_has_true in Hs. now subst.
    + destruct (nthSlot t n) as [i'|] eqn:E; [|discriminate].
      injection H as <-. destruct (IH _ _ E) as [H1 H2].
      split; [assumption|]. simpl. rewrite Hs. simpl. now rewrite H2.
  - destruct (nthSlot t n) as [i'|] eqn:E; [|discriminate].
    injection H as <-. destruct (IH _ _ E) as [H1 H2].
    split; [assumption|]. simpl. now rewrite Hs.
Qed.

Lemma nthSlot_None t : forall n : nat,
  nthSlot t n = None <-> (slotCount t <= n)%nat.
Proof.
  unfold slotCount.
  induction t as [|c t IH]; intros n; simpl; [split; [lia | reflexivity]|].
  destruct (slots_has c) eqn:Hs; simpl.
  - destruct n as [|n]; [split; [discriminate | lia]|].
    specialize (IH n). destruct (nthSlot t n); simpl.
    + split; [discriminate|]. intros H.
      assert (Hf : Some n0 = None) by (apply IH; lia). discriminate.
    + split; [|reflexivity]. intros _. apply le_n_S. now apply IH.
  - specialize (IH n). destruct (nthSlot t n); simpl; [|assumption].
    split; [discriminate|]. intros H.
    assert (Hf : Some n0 = None) by now apply IH. discriminate.
Qed.

Lemma no_slot_count t :
  (forall (m : nat) c, t !! m = Some c -> slots_has c = false) ->
  slotCount t = 0%nat.
Proof.
  unfold slotCount. induction t as [|c t IH]; intros H; [reflexivity|].
  simpl. rewrite (H 0%nat c eq_refl). apply IH.
  intros m c' Hm. now apply (H (S m)).
Qed.

Lemma caret_index (pattern value : jsstring) (selection : nat) :
  findIndex slots_has (clean pattern (take selection value))
  = match nthSlot (replaceDigits pattern)
            (length (matchDigits (take selection value))) with
    | Some i => Z.of_nat i
    | None => -1
    end.
Proof.
  unfold findIndex, clean, cleanInput.
  rewrite findIndex_fill; [|apply matchDigits_all | apply replaceDigits_nonDigits].
  now destruct (nthSlot _ _).
Qed.

End NextSlot.

(** X6. Without the backspace flag the caret goes to the slot the next
    digit will fill: with [n] digits before the caret and more than [n]
    slots in the template, it is the offset of the slot that [n] slots
    precede.  When every slot is taken, it goes just after the last slot,
    with or without the flag. *)
Theorem caret_next_slot (pattern value : jsstring) (selection : nat) :
  let t := replaceDigits pattern in
  let n := length (matchDigits (take selection value)) in
  ((n < slotCount t)%nat ->
     exists i : nat,
       PhoneInput.caret pattern false value selection = Some (Z.of_nat i)
       /\ t !! i = Some "."%char
       /\ slotCount (take i t) = n)
  /\ ((0 < slotCount t <= n)%nat ->
      exists k : nat,
        t !! k = Some "."%char
        /\ (forall (m : nat) c, (k < m)%nat -> t !! m = Some c -> slots_has c = false)
        /\ forall backRef,
             PhoneInput.caret pattern backRef value selection
             = Some (Z.of_nat k + 1)%Z).
Proof.
  intros t n. pose proof (caret_index pattern value selection) as Hi.
  fold t n in Hi. split.
  - intros Hn. destruct (nthSlot t n) as [i|] eqn:E.
    + exists i. destruct (nthSlot_Some _ _ _ E) as [H1 H2].
      split; [|auto]. unfold PhoneInput.caret. rewrite Hi.
      destruct (Z.ltb_spec (Z.of_nat i) 0); [lia | reflexivity].
    + apply nthSlot_None in E. lia.
  - intros [Hpos Hn].
    assert (E : nthSlot t n = None) by now apply nthSlot_None.
    rewrite E in Hi.
    assert (Hlen : (0 < length t)%nat).
    { destruct t; [unfold slotCount in Hpos; simpl in Hpos; lia | simpl; lia]. }
    assert (Hprev : length (PhoneInput.prev pattern) = length t).
    { unfold PhoneInput.prev. now rewrite prevFrom_length. }
    destruct (lookup_lt_is_Some_2 (PhoneInput.prev pattern) (length t - 1))
      as [v Hv]; [lia|].
    unfold PhoneInput.prev in Hv. fold t in Hv.
    destruct (prevFrom_lookup _ _ _ _ _ Hv)
      as [[Hnone _]|(k & c & Hk & Hc & Hs & Hafter & ->)].
    + exfalso. rewrite no_slot_count in Hpos; [lia|].
      intros m c Hm. apply (Hnone m); [|assumption].
      apply lookup_lt_Some in Hm. lia.
    + exists k. apply slots_has_true in Hs. subst c.
      split; [assumption|]. split.
      * intros m c Hkm Hm. apply (Hafter m); [|assumption].
        apply lookup_lt_Some in Hm. lia.
      * intros backRef. unfold PhoneInput.caret. rewrite Hi. simpl.
        unfold at_index. rewrite Hprev.
        destruct (Z.ltb_spec (Z.of_nat (length t) - 1) 0); [lia|].
        replace (Z.to_nat (Z.of_nat (length t) - 1)) with (length t - 1)%nat by lia.
        unfold PhoneInput.prev. fold t. rewrite Hv. f_equal.
Qed.

Lemma caret_next_slot_witness :
  exists i : nat,
    PhoneInput.caret (js "+1 (...) ...-....") false (js "+1 (20") 6
    = Some (Z.of_nat i)
    /\ replaceDigits (js "+1 (...) ...-....") !! i = Some "."%char
    /\ slotCount (take i (replaceDigits (js "+1 (...) ...-...."))) = 3%nat.
Proof.
  apply (proj1 (caret_next_slot (js "+1 (...) ...-....") (js "+1 (20") 6)).
  vm_compute. lia.
Defined.

(** ** From the parsed number back to the digits *)

Section ParsedDigits.

Implicit Types (p v r : jsstring).

Lemma stripPrefix_Some p : forall v r, stripPrefix p v = Some r -> v = p ++ r.
Proof.
  induction p as [|a p IH]; intros v r H; simpl in H.
  - destruct v; injection H as <-; reflexivity.
  - destruct v as [|c v]; [discriminate|].
    destruct (Ascii.eqb_spec c a) as [->|_]; [|discriminate].
    simpl. f_equal. now apply IH.
Qed.

Lemma phoneNumberMatch_Some p v ph :
  Forall (fun c => isDigit c = true) v ->
  phoneNumberMatch p v = Some ph ->
  v = p ++ ph /\ ph <> [].
Proof.
  intros Hv H. unfold phoneNumberMatch in H.
  destruct (stripPrefix p v) as [r|] eqn:E; [|discriminate].
  apply stripPrefix_Some in E. subst v.
  apply Forall_app in Hv as [_ Hr].
  rewrite (takeDigits_all _ Hr) in H.
  destruct r; [discriminate|]. injection H as <-. split; [reflexivity | discriminate].
Qed.

End ParsedDigits.

(** X7. When the parser returns a subscriber number, it is a non-empty
    string of digits, and (the country code [0] aside) the parsed fields
    put together again by [getRawValue] are the raw digits of the
    formatted value: the parsed number can be given back as the value. *)
Theorem parsed_fields_give_raw_digits (formattedNumber : jsstring)
    (countriesList : list CountryRecord) (country : option string)
    (subscriber : jsstring) :
  let parsed := parsePhoneNumber formattedNumber countriesList country in
  phoneNumber parsed = Some subscriber ->
  countryCode parsed <> Some 0%N ->
  subscriber <> []
  /\ Forall (fun c => isDigit c = true) subscriber
  /\ getRawValue (inl parsed) = getRawValue (inr formattedNumber).
Proof.
  unfold parsePhoneNumber. simpl.
  set (cc := countryCodeMatch formattedNumber ≫= parseInt).
  set (ac := areaCodeMatch formattedNumber ≫= parseInt).
  intros Hph Hcc.
  pose proof (matchDigits_all formattedNumber) as Hv.
  assert (Hn : exists n, cc = Some n /\ n <> 0%N).
  { destruct cc as [n|]; [exists n; split; congruence|]. exfalso.
    unfold interpolate, js in Hph. simpl in Hph.
    rewrite phoneNumberMatch_letter in Hph; [discriminate | reflexivity | assumption]. }
  destruct Hn as (n & Hn & Hn0). rewrite Hn in Hph |- *.
  destruct (phoneNumberMatch_Some _ _ _ Hv Hph) as [Hraw Hne].
  split; [assumption|]. split.
  - rewrite Hraw in Hv. now apply Forall_app in Hv as [_ Hv].
  - rewrite Hph. rewrite Hraw, <- app_assoc. simpl.
    destruct (N.eqb_spec n 0); [contradiction | reflexivity].
Qed.

Lemma parsed_fields_give_raw_digits_witness :
  getRawValue (inl (parsePhoneNumber (js "+1 (202) 555-1234") [] None))
  = js "12025551234".
Proof.
  refine (proj2 (proj2 (parsed_fields_give_raw_digits (js "+1 (202) 555-1234")
                          [] None (js "5551234") _ _))).
  - reflexivity.
  - discriminate.
Defined.

(** ** Before enough digits are typed *)

Section ShortInput.

Lemma startsWith_length (rawValue prefix : jsstring) :
  startsWith rawValue prefix = true -> (length prefix <= length rawValue)%nat.
Proof.
  intros H. apply startsWith_prefix in H as [k ->]. rewrite length_app. lia.
Qed.

Lemma getMetadata_short (rawValue : jsstring) (countriesList : list CountryRecord)
    (country : option string) :
  Forall (fun c => (length rawValue < length (dialOf c))%nat) countriesList ->
  getMetadata rawValue countriesList country = None.
Proof.
  intros H. apply getMetadata_None.
  eapply Forall_impl; [exact H|]. intros c Hc [Hp _].
  destruct Hp as [k Hk]. apply (f_equal (@length ascii)) in Hk.
  rewrite length_app in Hk. simpl in Hc. lia.
Qed.

Lemma find_iso_eq (countries : list CountryRecord) (country : string) c :
  List.find (fun c' => String.eqb (isoOf c') country) countries = Some c ->
  isoOf c = country /\ In c countries.
Proof.
  intros H. apply List.find_some in H as [Hin H].
  apply String.eqb_eq in H. auto.
Qed.

End ShortInput.

(** X8. No country is matched while the raw digits are shorter than every
    dial code of the candidates; in particular none is matched by an empty
    value when no dial code is empty. *)
Theorem getMetadata_needs_a_dial_code (rawValue : jsstring)
    (countriesList : list CountryRecord) (country : option string) :
  Forall (fun c => (length rawValue < length (dialOf c))%nat) countriesList ->
  getMetadata rawValue countriesList country = None.
Proof. apply getMetadata_short. Qed.

Lemma getMetadata_needs_a_dial_code_witness :
  getMetadata (js "37")
    [ {| isoOf := "am"; nameOf := js "Armenia"; regionsOf := [];
         dialOf := js "374"; maskOf := js "+374 .. ......" |} ] None
  = None.
Proof.
  apply getMetadata_needs_a_dial_code. repeat constructor.
Defined.

(** X9. With an initial value without digits and a table without empty
    dial code, the default row is the first row of the table with the ISO
    code [country], and the input starts from the dial code of that row. *)
Theorem default_state_of_empty_value (countries : list CountryRecord)
    (initialValue : PhoneNumber + jsstring) (country : string) (c : CountryRecord) :
  getRawValue initialValue = [] ->
  Forall (fun c' => dialOf c' <> []) countries ->
  List.find (fun c' => String.eqb (isoOf c') country) countries = Some c ->
  Component.defaultMetadata countries initialValue country = Some c
  /\ Component.defaultValueState countries initialValue country = Some (dialOf c).
Proof.
  intros Hraw Hdial Hfind.
  assert (Hdefault : Component.defaultMetadata countries initialValue country = Some c).
  { unfold Component.defaultMetadata. rewrite Hraw, getMetadata_short; [assumption|].
    eapply Forall_impl; [exact Hdial|]. intros c' Hc'. simpl in *.
    destruct (dialOf c'); [congruence | simpl; lia]. }
  split; [assumption|].
  unfold Component.defaultValueState. rewrite Hraw, Hdefault.
  destruct (find_iso_eq _ _ _ Hfind) as [-> _]. now rewrite Hfind.
Qed.

Lemma default_state_of_empty_value_witness :
  Component.defaultValueState
    [ {| isoOf := "am"; nameOf := js "Armenia"; regionsOf := [];
         dialOf := js "374"; maskOf := js "+374 .. ......" |};
      {| isoOf := "us"; nameOf := js "United States"; regionsOf := [];
         dialOf := js "1"; maskOf := js "+1 (...) ...-...." |} ]
    (inr (js "")) "us"
  = Some (js "1").
Proof.
  refine (proj2 (default_state_of_empty_value _ (inr (js "")) "us"%string
                   {| isoOf := "us"; nameOf := js "United States"; regionsOf := [];
                      dialOf := js "1"; maskOf := js "+1 (...) ...-...." |} _ _ _)).
  - reflexivity.
  - repeat constructor; discriminate.
  - reflexivity.
Defined.

(** ** The list of selectable countries *)

Section Selectable.

Import Component.

Variables (countries : list CountryRecord)
  (onlyCountries excludeCountries preferredCountries : list string)
  (query : jsstring).

Let filteredCountries : list CountryRecord :=
  List.filter
    (fun c => includes (countriesOnly countries onlyCountries excludeCountries) (isoOf c)
              && matchesQuery query c)
    countries.

Lemma includes_In (l : list string) (x : string) : includes l x = true <-> In x l.
Proof.
  unfold includes. rewrite List.existsb_exists. split.
  - intros (y & Hy & He). apply String.eqb_eq in He. now subst.
  - intros H. exists x. split; [assumption | apply String.eqb_refl].
Qed.

Lemma countriesList_split :
  countriesList countries onlyCountries excludeCountries preferredCountries query
  = List.filter (fun c => includes preferredCountries (isoOf c)) filteredCountries
    ++ List.filter (fun c => negb (includes preferredCountries (isoOf c)))
         filteredCountries.
Proof. reflexivity. Qed.

Lemma filtered_In (c : CountryRecord) :
  In c filteredCountries
  <-> In c countries
      /\ (onlyCountries = [] \/ In (isoOf c) onlyCountries)
      /\ ~ In (isoOf c) excludeCountries
      /\ matchesQuery query c = true.
Proof.
  unfold filteredCountries, countriesOnly.
  rewrite List.filter_In, andb_true_iff, includes_In, List.filter_In,
    andb_true_iff, negb_true_iff, includes_In.
  rewrite <- (not_true_iff_false (includes excludeCountries (isoOf c))), includes_In.
  split.
  - intros (Hc & (_ & Hallow & Hexcl) & Hq). repeat split; try assumption.
    destruct onlyCountries; [now left | right; exact Hallow].
  - intros (Hc & Hallow & Hexcl & Hq). repeat split; try assumption.
    + now apply List.in_map.
    + destruct onlyCountries as [|o l]; simpl.
      * now apply List.in_map.
      * destruct Hallow as [H|H]; [discriminate | exact H].
Qed.

Lemma filter_sublist {A} (f : A -> bool) (l : list A) : List.filter f l `sublist_of` l.
Proof.
  induction l as [|a l IH]; simpl; [constructor|].
  destruct (f a); [now apply sublist_skip | now apply sublist_cons].
Qed.

Lemma find_app {A} (f : A -> bool) (l1 l2 : list A) :
  List.find f (l1 ++ l2)
  = match List.find f l1 with
    | Some x => Some x
    | None => List.find f l2
    end.
Proof.
  induction l1 as [|a l1 IH]; simpl; [reflexivity|]. now destruct (f a).
Qed.

Lemma find_In {A} (f : A -> bool) (l : list A) (x : A) :
  In x l -> f x = true -> exists y, List.find f l = Some y.
Proof.
  intros Hin Hx. destruct (List.find f l) as [y|] eqn:E; [eauto|].
  rewrite (List.find_none f l E x Hin) in Hx. discriminate.
Qed.

End Selectable.

(** X10. A country is selectable exactly when it is a row of the table,
    is allowed ([onlyCountries] is empty or lists its ISO code), is not
    excluded, and matches the search query. *)
Theorem countriesList_members (countries : list CountryRecord)
    (onlyCountries excludeCountries preferredCountries : list string)
    (query : jsstring) (c : CountryRecord) :
  In c (Component.countriesList countries onlyCountries excludeCountries
          preferredCountries query)
  <-> In c countries
      /\ (onlyCountries = [] \/ In (isoOf c) onlyCountries)
      /\ ~ In (isoOf c) excludeCountries
      /\ Component.matchesQuery query c = true.
Proof.
  rewrite countriesList_split, List.in_app_iff. split.
  - intros [H|H]; apply List.filter_In in H as [H _]; now apply filtered_In in H.
  - intros H.
    apply (proj2 (filtered_In countries onlyCountries excludeCountries query c)) in H.
    destruct (Component.includes preferredCountries (isoOf c)) eqn:E;
      [left | right]; apply List.filter_In; split; try assumption.
    now rewrite E.
Qed.

(** X11. The selectable countries are the preferred ones followed by the
    others, each group in the order of the table. *)
Theorem countriesList_preferred_first (countries : list CountryRecord)
    (onlyCountries excludeCountries preferredCountries : list string)
    (query : jsstring) :
  exists preferred others,
    Component.countriesList countries onlyCountries excludeCountries
      preferredCountries query = preferred ++ others
    /\ Forall (fun c => In (isoOf c) preferredCountries) preferred
    /\ Forall (fun c => ~ In (isoOf c) preferredCountries) others
    /\ preferred `sublist_of` countries
    /\ others `sublist_of` countries.
Proof.
  rewrite countriesList_split. eexists _, _. split; [reflexivity|].
  split; [|split; [|split]].
  - apply List.Forall_forall. intros c Hc. apply List.filter_In in Hc as [_ Hc].
    now apply includes_In.
  - apply List.Forall_forall. intros c Hc. apply List.filter_In in Hc as [_ Hc].
    rewrite <- includes_In. apply negb_true_iff in Hc. congruence.
  - etransitivity; apply filter_sublist.
  - etransitivity; apply filter_sublist.
Qed.

(** X12. Countries that share a dial code: when a preferred selectable
    country qualifies for the raw digits, the matcher run on the selectable
    countries returns a preferred country. *)
Theorem preferred_country_wins (countries : list CountryRecord)
    (onlyCountries excludeCountries preferredCountries : list string)
    (query rawValue : jsstring) (country : option string) (c : CountryRecord) :
  let selectable :=
    Component.countriesList countries onlyCountries excludeCountries
      preferredCountries query in
  In c selectable ->
  In (isoOf c) preferredCountries ->
  qualifies rawValue country c ->
  exists c', getMetadata rawValue selectable country = Some c'
             /\ In (isoOf c') preferredCountries
             /\ qualifies rawValue country c'.
Proof.
  intros selectable Hc Hpref Hq. unfold selectable in *.
  rewrite countriesList_split in *. unfold getMetadata. rewrite find_app.
  apply List.in_app_iff in Hc as [Hc|Hc].
  - destruct (find_In (fun c0 => startsWith rawValue (dialOf c0) && pinned country c0)
                _ c Hc) as [c' Hc'].
    { now apply qualifies_spec. }
    rewrite Hc'. exists c'. split; [reflexivity|].
    apply List.find_some in Hc' as [Hin Hq'].
    apply List.filter_In in Hin as [_ Hin].
    split; [now apply includes_In | now apply qualifies_spec].
  - apply List.filter_In in Hc as [_ Hc]. apply negb_true_iff in Hc.
    apply includes_In in Hpref. congruence.
Qed.

Lemma preferred_country_wins_witness :
  exists c',
    getMetadata (js "1416")
      (Component.countriesList
         [ {| isoOf := "us"; nameOf := js "United States"; regionsOf := [];
              dialOf := js "1"; maskOf := js "+1 (...) ...-...." |};
           {| isoOf := "ca"; nameOf := js "Canada"; regionsOf := [];
              dialOf := js "1"; maskOf := js "+1 (...) ...-...." |} ]
         [] [] ["ca"%string] (js "")) None
    = Some c'
    /\ In (isoOf c') ["ca"%string]
    /\ qualifies (js "1416") None c'.
Proof.
  apply (preferred_country_wins _ [] [] ["ca"%string] (js "") (js "1416") None
           {| isoOf := "ca"; nameOf := js "Canada"; regionsOf := [];
              dialOf := js "1"; maskOf := js "+1 (...) ...-...." |}).
  - vm_compute. tauto.
  - now left.
  - split; [now exists (js "416") | discriminate].
Defined.

(** ** The current country *)

Section CurrentCountry.

Import Component.

Lemma getMetadata_In (rawValue : jsstring) (countriesList : list CountryRecord)
    (country : option string) (c : CountryRecord) :
  getMetadata rawValue countriesList country = Some c ->
  In c countriesList /\ qualifies rawValue country c.
Proof.
  intros H. apply List.find_some in H as [Hin Hq]. split; [assumption|].
  now apply qualifies_spec.
Qed.

Lemma isoIs_true (iso : string) (x : option CountryRecord) :
  isoIs iso x = true <-> exists c, x = Some c /\ iso = isoOf c.
Proof.
  destruct x as [c|]; simpl.
  - rewrite String.eqb_eq. split; [eauto|]. now intros (c' & [= <-] & H).
  - split; [discriminate|]. now intros (c' & H & _).
Qed.

(** Rows of a list with distinct ISO codes are told apart by their code. *)
Lemma same_iso_same_row (l : list CountryRecord) (c c' : CountryRecord) :
  NoDup (map isoOf l) -> In c l -> In c' l -> isoOf c = isoOf c' -> c = c'.
Proof.
  induction l as [|a l IH]; intros Hnd Hc Hc' Hiso; [destruct Hc|].
  simpl in Hnd. apply NoDup_cons in Hnd as [Ha Hnd].
  assert (Hmem : forall x, In x l -> isoOf x <> isoOf a).
  { intros x Hx He. apply Ha. rewrite <- He.
    apply list_elem_of_In. now apply List.in_map. }
  destruct Hc as [->|Hc], Hc' as [->|Hc'].
  - reflexivity.
  - now destruct (Hmem _ Hc').
  - now destruct (Hmem _ Hc).
  - now apply IH.
Qed.

End CurrentCountry.

(** X13. The current country is undefined only when no country is
    selectable; otherwise its ISO code is the code of a selectable
    country. *)
Theorem metadata_is_selectable (countriesList : list CountryRecord)
    (countryCode : string) (defaultMetadata : option CountryRecord)
    (value : jsstring) :
  (Component.metadata countriesList countryCode defaultMetadata value = None
   <-> countriesList = [])
  /\ forall m,
       Component.metadata countriesList countryCode defaultMetadata value = Some m ->
       In (isoOf m) (map isoOf countriesList).
Proof.
  unfold Component.metadata.
  destruct (getMetadata (getRawValue (inr value)) countriesList (Some countryCode))
    as [c|] eqn:Hcalc.
  - destruct (getMetadata_In _ _ _ _ Hcalc) as [Hin _].
    destruct (List.find _ countriesList) as [x|] eqn:Hfind.
    + split.
      * split; [discriminate|]. intros ->. destruct Hin.
      * intros m [= <-]. now apply List.in_map.
    + exfalso. pose proof (List.find_none _ _ Hfind c Hin) as H.
      simpl in H. now rewrite String.eqb_refl in H.
  - destruct (List.find _ countriesList) as [x|] eqn:Hfind.
    + apply List.find_some in Hfind as [Hin Hx]. simpl in Hx.
      apply isoIs_true in Hx as (d & -> & Hd). split.
      * split; [discriminate|]. intros ->. destruct Hin.
      * intros m [= <-]. rewrite <- Hd. now apply List.in_map.
    + split.
      * destruct countriesList; simpl; split; congruence.
      * intros m Hm. apply List.in_map.
        destruct countriesList as [|a l]; [discriminate|].
        injection Hm as <-. now left.
Qed.

(** X14. Selecting a selectable country makes it the current country,
    when the ISO codes of the selectable countries are distinct two-letter
    codes and the mask of the country starts with its dial code. *)
Theorem selected_country_is_current (countriesList : list CountryRecord)
    (defaultMetadata : option CountryRecord) (c : CountryRecord) :
  In c countriesList ->
  NoDup (map isoOf countriesList) ->
  String.length (isoOf c) = 2%nat ->
  noDigitAfterSlot (maskOf c) = true ->
  dialOf c `prefix_of` matchDigits (maskOf c) ->
  Component.metadata countriesList (snd (Component.onSelect c)) defaultMetadata
    (fst (Component.onSelect c))
  = Some c.
Proof.
  intros Hin Hnd Hiso Hmask Hdial.
  assert (Hvalue : getRawValue (inr (fst (Component.onSelect c))) = matchDigits (maskOf c)).
  { unfold Component.onSelect, cleanInput. simpl.
    rewrite (fill_own_digits _ Hmask). apply matchDigits_displayFormat. }
  assert (Hcode : snd (Component.onSelect c) = isoOf c).
  { unfold Component.onSelect. simpl.
    destruct (isoOf c) as [|a [|b [|? ?]]]; try discriminate. simpl.
    now destruct (string_of_list_ascii (dialOf c)). }
  unfold Component.metadata. rewrite Hvalue, Hcode.
  assert (Hq : qualifies (matchDigits (maskOf c)) (Some (isoOf c)) c).
  { split; [assumption|]. now intros k [= <-]. }
  destruct (getMetadata (matchDigits (maskOf c)) countriesList (Some (isoOf c)))
    as [c'|] eqn:Hcalc.
  - destruct (getMetadata_In _ _ _ _ Hcalc) as [Hin' [_ Hpin]].
    assert (c' = c) as ->.
    { apply (same_iso_same_row countriesList); try assumption.
      now apply Hpin. }
    destruct (find_In (fun x => Component.isoIs (isoOf x) (Some c)
                                || Component.isoIs (isoOf x) defaultMetadata)
                countriesList c Hin) as [y ->]; [|reflexivity].
    simpl. now rewrite String.eqb_refl.
  - apply getMetadata_None in Hcalc. rewrite List.Forall_forall in Hcalc.
    now destruct (Hcalc c Hin).
Qed.

Lemma selected_country_is_current_witness :
  let ca := {| isoOf := "ca"; nameOf := js "Canada"; regionsOf := [];
               dialOf := js "1"; maskOf := js "+1 (...) ...-...." |} in
  let us := {| isoOf := "us"; nameOf := js "United States"; regionsOf := [];
               dialOf := js "1"; maskOf := js "+1 (...) ...-...." |} in
  Component.metadata [us; ca] (snd (Component.onSelect ca)) (Some us)
    (fst (Component.onSelect ca))
  = Some ca.
Proof.
  intros ca us. apply selected_country_is_current.
  - right. now left.
  - simpl. apply NoDup_cons. split; [|apply NoDup_singleton].
    intros H. apply list_elem_of_singleton in H. discriminate.
  - reflexivity.
  - reflexivity.
  - now exists [].
Defined.

(** ** Mounting and reporting *)

Section Reporting.

Import Component.

Lemma prefix_of_take (p l : jsstring) (n : nat) :
  p `prefix_of` l -> (length p <= n)%nat -> p `prefix_of` take n l.
Proof.
  intros [k ->] Hn. exists (take (n - length p) k).
  now rewrite take_app_ge by lia.
Qed.

Lemma display_digits (pattern x : jsstring) :
  Forall (fun c => isDigit c = true) x ->
  matchDigits (displayFormat (clean pattern x))
  = take (slotCount (replaceDigits pattern)) x.
Proof.
  intros Hx. now rewrite matchDigits_displayFormat, clean_digits, (matchDigits_id x).
Qed.

End Reporting.

(** X15. The first run of the mount effect, with a current country whose
    dial code is made of digits and fits the slots of the template, stores a
    value whose raw digits start with that dial code.  A stored value that
    did not start with the dial code is not kept: the new value holds the
    dial code only. *)
Theorem mountEffect_shows_dial_code (pattern value : jsstring)
    (m : CountryRecord) (countriesList : list CountryRecord) :
  Forall (fun c => isDigit c = true) (dialOf m) ->
  (length (dialOf m) <= slotCount (replaceDigits pattern))%nat ->
  exists mounted,
    Component.mountEffect false pattern (Some m) countriesList value
    = Ok (Some mounted)
    /\ dialOf m `prefix_of` getRawValue (inr (Component.mountedValue mounted))
    /\ (startsWith (getRawValue (inr value)) (dialOf m) = false ->
        getRawValue (inr (Component.mountedValue mounted)) = dialOf m).
Proof.
  intros Hdial Hfits. eexists. split; [reflexivity|]. simpl.
  destruct (startsWith (matchDigits value) (dialOf m)) eqn:Hs.
  - split; [|discriminate].
    rewrite (display_digits _ _ (matchDigits_all value)).
    apply prefix_of_take; [now apply startsWith_prefix | assumption].
  - rewrite (display_digits _ _ Hdial), take_ge by assumption.
    split; [reflexivity | reflexivity].
Qed.

Lemma mountEffect_shows_dial_code_witness :
  exists mounted,
    Component.mountEffect false (js "+1 (...) ...-....") (Some
      {| isoOf := "us"; nameOf := js "United States"; regionsOf := [];
         dialOf := js "1"; maskOf := js "+1 (...) ...-...." |}) [] (js "2025551234")
    = Ok (Some mounted)
    /\ getRawValue (inr (Component.mountedValue mounted)) = js "1".
Proof.
  destruct (mountEffect_shows_dial_code (js "+1 (...) ...-....") (js "2025551234")
              {| isoOf := "us"; nameOf := js "United States"; regionsOf := [];
                 dialOf := js "1"; maskOf := js "+1 (...) ...-...." |} [])
    as (mounted & H1 & _ & H3).
  - repeat constructor.
  - vm_compute. lia.
  - exists mounted. split; [exact H1 | apply H3; reflexivity].
Defined.

(** X16. With a validation table keyed by two-letter codes that has a
    rule for every selectable country, the [valid] closure that [onChange]
    reports fails exactly when no selectable country with the current
    country code has a dial code that starts the displayed digits; otherwise
    it returns a boolean. *)
Theorem valid_fails_without_country (validations : gmap string (regex * regex))
    (pattern value : jsstring) (countriesList : list CountryRecord)
    (countryCode : string) (strict : bool) :
  map_Forall (fun k _ => String.length k = 2%nat) validations ->
  Forall (fun c => String.length (isoOf c) = 2%nat
                   /\ is_Some (validations !! isoOf c)) countriesList ->
  let displayed := take (slotCount (replaceDigits pattern)) (matchDigits value) in
  (Component.valid validations
     (Component.onChange pattern countriesList countryCode value) strict
   = TypeError
   <-> Forall (fun c => ~ qualifies displayed (Some countryCode) c) countriesList)
  /\ (Component.valid validations
        (Component.onChange pattern countriesList countryCode value) strict
      <> TypeError
      -> exists b,
           Component.valid validations
             (Component.onChange pattern countriesList countryCode value) strict
           = Ok b).
Proof.
  intros Hkeys Hrules displayed.
  unfold Component.valid, Component.onChange, checkValidity, parsePhoneNumber.
  simpl. rewrite matchDigits_displayFormat, clean_digits. fold displayed.
  destruct (getMetadata displayed countriesList (Some countryCode)) as [c|] eqn:Hcalc;
    simpl.
  - destruct (getMetadata_In _ _ _ _ Hcalc) as [Hin Hq].
    rewrite List.Forall_forall in Hrules.
    destruct (Hrules c Hin) as [Hlen [[lenient strictPattern] Hrule]].
    rewrite (getProperty_iso _ _ Hlen), Hrule. split.
    + split; [discriminate|]. intros Hnone.
      rewrite List.Forall_forall in Hnone. now destruct (Hnone c Hin).
    + intros _. eauto.
  - rewrite (getProperty_undefined _ Hkeys). split.
    + split; [|reflexivity]. intros _. now apply getMetadata_None.
    + congruence.
Qed.

Lemma valid_fails_without_country_witness :
  Component.valid {[ "us"%string := (Times 10 AnyDigit, Times 10 AnyDigit) ]}
    (Component.onChange (js "+1 (...) ...-....")
       [ {| isoOf := "us"; nameOf := js "United States"; regionsOf := [];
            dialOf := js "1"; maskOf := js "+1 (...) ...-...." |} ]
       "us" (js "+7 (999)")) false
  = TypeError.
Proof.
  refine (proj2 (proj1 (valid_fails_without_country _ (js "+1 (...) ...-....")
                          (js "+7 (999)") _ "us"%string false _ _)) _).
  - apply map_Forall_singleton. reflexivity.
  - repeat constructor. now rewrite lookup_singleton_eq.
  - repeat constructor. intros [[k Hk] _]. discriminate.
Defined.

(** ** Typing one more character *)

Section OneMoreCharacter.

Implicit Types (q t x : jsstring).

Lemma fill_one_more t : forall q d,
  Forall (fun c => isDigit c = true) (q ++ [d]) ->
  Forall (fun c => isDigit c = false) t ->
  fill (q ++ [d]) t
  = match nthSlot t (length q) with
    | Some i => <[i := d]> (fill q t)
    | None => fill q t
    end.
Proof.
  induction t as [|c t IH]; intros q d Hq Ht; [reflexivity|].
  inversion Ht as [|? ? Hc Ht']; subst.
  pose proof Hq as Hq0. apply Forall_app in Hq0 as [Hq0 _].
  simpl. rewrite (head_is_digits _ _ Hq Hc), (head_is_digits _ _ Hq0 Hc). simpl.
  destruct (slots_has c) eqn:Hs.
  - destruct q as [|e q]; simpl; [reflexivity|].
    inversion Hq as [|? ? _ Hq']; subst. rewrite (IH _ _ Hq' Ht').
    now destruct (nthSlot t (length q)).
  - rewrite (IH _ _ Hq Ht'). now destruct (nthSlot t (length q)).
Qed.

End OneMoreCharacter.

(** X17. Typing a character at the end of the value: a character that is
    not a digit changes nothing in the formatted sequence; a digit is
    written into the first free slot and changes nothing else; when no slot
    is free the digit is ignored. *)
Theorem clean_one_more_character (pattern x : jsstring) (d : ascii) :
  let i := findIndex slots_has (clean pattern x) in
  (isDigit d = false -> clean pattern (x ++ [d]) = clean pattern x)
  /\ (isDigit d = true -> (i < 0)%Z -> clean pattern (x ++ [d]) = clean pattern x)
  /\ (isDigit d = true -> (0 <= i)%Z ->
      clean pattern (x ++ [d]) = <[Z.to_nat i := d]> (clean pattern x)).
Proof.
  intros i.
  assert (Hi : i = match nthSlot (replaceDigits pattern) (length (matchDigits x)) with
                   | Some k => Z.of_nat k
                   | None => (-1)%Z
                   end).
  { pose proof (caret_index pattern x (length x)) as H.
    now rewrite firstn_all in H. }
  assert (Hd : isDigit d = true ->
               clean pattern (x ++ [d])
               = match nthSlot (replaceDigits pattern) (length (matchDigits x)) with
                 | Some k => <[k := d]> (clean pattern x)
                 | None => clean pattern x
                 end).
  { intros H. unfold clean, cleanInput. rewrite matchDigits_app. simpl. rewrite H.
    apply fill_one_more; [|apply replaceDigits_nonDigits].
    apply Forall_app. split; [apply matchDigits_all | now repeat constructor]. }
  remember (nthSlot (replaceDigits pattern) (length (matchDigits x))) as slot eqn:E.
  clear E. split; [|split].
  - intros H. unfold clean, cleanInput. rewrite matchDigits_app. simpl.
    now rewrite H, app_nil_r.
  - intros H Hneg. rewrite (Hd H). destruct slot; [lia | reflexivity].
  - intros H Hpos. rewrite (Hd H). destruct slot as [k|]; [|lia].
    rewrite Hi. now rewrite Nat2Z.id.
Qed.

Lemma clean_one_more_character_witness :
  clean (js "+1 (...) ...-....") (js "+1 (20" ++ ["2"%char])
  = <[6%nat := "2"%char]> (clean (js "+1 (...) ...-....") (js "+1 (20")).
Proof.
  refine (proj2 (proj2 (clean_one_more_character (js "+1 (...) ...-....")
                          (js "+1 (20") "2"%char)) _ _).
  - reflexivity.
  - vm_compute. discriminate.
Defined.

(** ** The table of previous slots *)

Lemma slots_has_dot : slots_has "."%char = true.
Proof. now apply slots_has_true. Qed.

(** X18. An entry of [prev] is at most one more than its index, and equal
    to it exactly at the slots of the template; it is [0] exactly when no
    slot is at or before its index; and the table never decreases. *)
Theorem prev_table_invariants (pattern : jsstring) (k : nat) (v : Z) :
  PhoneInput.prev pattern !! k = Some v ->
  (0 <= v <= Z.of_nat k + 1)%Z
  /\ (v = (Z.of_nat k + 1)%Z <-> replaceDigits pattern !! k = Some "."%char)
  /\ (v = 0%Z <-> forall (m : nat) c, (m <= k)%nat ->
                    replaceDigits pattern !! m = Some c -> slots_has c = false)
  /\ forall (k' : nat) v', (k <= k')%nat ->
       PhoneInput.prev pattern !! k' = Some v' -> (v <= v')%Z.
Proof.
  intros Hv. unfold PhoneInput.prev in *.
  set (t := replaceDigits pattern) in *.
  pose proof (lookup_lt_Some _ _ _ Hv) as Hk. rewrite prevFrom_length in Hk.
  destruct (lookup_lt_is_Some_2 t k Hk) as [ck Hck].
  destruct (prevFrom_lookup _ _ _ _ _ Hv)
    as [[Hnone ->]|(j & c & Hj & Hc & Hs & Hafter & ->)].
  - split; [lia|]. split; [|split].
    + split; [lia|]. intros H. pose proof (Hnone k "."%char (le_n k) H) as Hf.
      rewrite slots_has_dot in Hf. discriminate.
    + split; [intros _; exact Hnone | reflexivity].
    + intros k' v' Hk' Hv'.
      destruct (prevFrom_lookup _ _ _ _ _ Hv') as [[_ ->]|(j' & _ & _ & _ & _ & _ & ->)]; lia.
  - split; [lia|]. split; [|split].
    + split.
      * intros H. assert (j = k) as -> by lia.
        apply slots_has_true in Hs. now subst c.
      * intros H. destruct (Nat.eq_dec j k) as [->|Hne]; [lia|].
        pose proof (Hafter k "."%char ltac:(lia) H) as Hf.
        rewrite slots_has_dot in Hf. discriminate.
    + split; [lia|]. intros H. rewrite (H j c) in Hs; [discriminate | lia | assumption].
    + intros k' v' Hk' Hv'.
      destruct (prevFrom_lookup _ _ _ _ _ Hv')
        as [[Hnone' _]|(j' & c' & Hj' & Hc' & Hs' & Hafter' & ->)].
      * rewrite (Hnone' j c) in Hs; [discriminate | lia | assumption].
      * destruct (Nat.le_gt_cases j j') as [Hle|Hgt]; [lia|].
        rewrite (Hafter' j c) in Hs; [discriminate | lia | assumption].
Qed.

Lemma prev_table_invariants_witness :
  (0 <= 7 <= Z.of_nat 8 + 1)%Z
  /\ forall (k' : nat) v', (8 <= k')%nat ->
       PhoneInput.prev (js "+1 (...) ...-....") !! k' = Some v' -> (7 <= v')%Z.
Proof.
  destruct (prev_table_invariants (js "+1 (...) ...-....") 8 7 eq_refl)
    as (H1 & _ & _ & H4).
  split; [exact H1 | exact H4].
Defined.

(** ** The country code, wherever it stands *)

Section LeftmostCountryCode.

Lemma countryCodeMatch_skip (before s : jsstring) :
  ~ hasPlusDigits before ->
  countryCodeMatch (before ++ "+"%char :: s) = countryCodeMatch ("+"%char :: s).
Proof.
  induction before as [|c before IH]; intros Hno; [reflexivity|].
  assert (Hrest : ~ hasPlusDigits before).
  { intros (b & d & a & -> & Hd). apply Hno. now exists (c :: b), d, a. }
  cbn [app countryCodeMatch]. destruct (Ascii.eqb_spec c "+"%char) as [->|_].
  - destruct before as [|d before']; simpl.
    + apply (IH Hrest).
    + destruct (isDigit d) eqn:Hd.
      * exfalso. apply Hno. now exists [], d, before'.
      * apply (IH Hrest).
  - apply (IH Hrest).
Qed.

End LeftmostCountryCode.

(** X19. The country code is read after the first [+] that a digit
    follows, wherever it stands in the formatted value: it is the value of
    the whole run of digits after that [+]. *)
Theorem countryCode_after_first_plus (before ds after : jsstring)
    (countriesList : list CountryRecord) (country : option string) :
  ~ hasPlusDigits before ->
  ds <> [] ->
  Forall (fun c => isDigit c = true) ds ->
  startsNonDigit after ->
  countryCode
    (parsePhoneNumber (before ++ "+"%char :: ds ++ after) countriesList country)
  = Some (digitsValue ds).
Proof.
  intros Hno Hne Hds Hafter. unfold parsePhoneNumber. simpl.
  rewrite countryCodeMatch_skip by assumption.
  rewrite countryCodeMatch_plus by assumption. simpl.
  now rewrite parseInt_plus.
Qed.

Lemma countryCode_after_first_plus_witness :
  countryCode (parsePhoneNumber (js "tel: +44 20") [] None) = Some 44%N.
Proof.
  apply (countryCode_after_first_plus (js "tel: ") (js "44") (js " 20") [] None).
  - intros (b & d & a & H & Hd).
    assert (Hin : In d (js "tel: ")).
    { rewrite H. apply List.in_or_app. right. right. now left. }
    vm_compute in Hin. intuition (subst; discriminate).
  - discriminate.
  - repeat constructor.
  - reflexivity.
Defined.
